(** * Personal job CRM: the data and consistency layer of [app.py]

    A shallow embedding of the Streamlit script [src/app.py]: the four
    tables, the psycopg2 connection with its implicit transaction, the
    store functions ([add_new_job], [delete_job_record], ...), the
    read queries with their ORDER BY clauses, the selectbox option maps
    and the form handlers that drive the two-step delete. *)

From stdpp Require Import base option list sorting gmap strings.

Local Open Scope string_scope.
Local Open Scope Z_scope.
Local Open Scope list_scope.

(** ** Rows of the four tables *)

(** Modelled from the spec: the table declarations are not part of the
    sources; the columns are the ones the spec's schema lists and the
    statements of [app.py] name.  Identifiers, dates and timestamps are
    integers, text columns are strings, a nullable column is an option. *)
Record company := Company {
  co_company_id : Z;
  co_company_name : string;
  co_sector : string;
  co_website : string;
  co_notes : string;
  co_source : string;
  co_created_at : Z
}.

Record job := Job {
  jb_job_id : Z;
  jb_job_title : string;
  jb_company_id : Z;
  jb_location : string;
  jb_status : string;
  jb_job_url : string;
  jb_notes : string;
  jb_date_found : option Z;
  jb_created_at : Z
}.

Record recruiter := Recruiter {
  rc_recruiter_id : Z;
  rc_name : string;
  rc_agency_company_id : option Z;
  rc_contact_info : string;
  rc_notes : string;
  rc_first_contact_date : option Z;
  rc_created_at : Z
}.

Record task := Task {
  tk_task_id : Z;
  tk_task_description : string;
  tk_due_date : option Z;
  tk_status : string;
  tk_priority : option string;
  tk_notes : string;
  tk_job_id : option Z;
  tk_recruiter_id : option Z;
  tk_company_id : option Z;
  tk_created_at : Z
}.

(** Modelled from the spec: the store holds the four tables; the backend
    generates an identifier for every inserted row from a per-table
    sequence and stamps the row with the current time. *)
Record database := Database {
  companies : list company;
  jobs : list job;
  recruiters : list recruiter;
  tasks : list task;
  next_company_id : Z;
  next_job_id : Z;
  next_recruiter_id : Z;
  next_task_id : Z;
  now : Z
}.

(** ** The write statements of [app.py] *)

Inductive statement :=
  | InsertCompany (name sector_val web notes_val src : string)
  | UpdateCompany (name sector_val web notes_val src : string) (id : Z)
  | DeleteCompany (id : Z)
  | InsertJob (title : string) (comp_id : Z) (loc stat url notes_val : string)
              (date_f : option Z)
  | UpdateJob (title : string) (comp_id : Z) (loc stat url notes_val : string)
              (date_f : option Z) (j_id : Z)
  | DeleteJob (id : Z)
  | InsertRecruiter (name : string) (agency_id : option Z)
                    (contact notes_val : string) (date_f : option Z)
  | UpdateRecruiter (name : string) (agency_id : option Z)
                    (contact notes_val : string) (date_f : option Z) (id : Z)
  | DeleteRecruiter (id : Z)
  | InsertTask (desc : string) (due : option Z) (stat : string)
               (prio : option string) (notes_val : string)
               (j_id rec_id comp_id : option Z)
  | UpdateTask (desc : string) (due : option Z) (stat : string)
               (prio : option string) (notes_val : string)
               (j_id rec_id comp_id : option Z) (task_id : Z)
  | DeleteTask (id : Z).

Definition set_companies (d : database) (l : list company) (next : Z) (t : Z) : database :=
  Database l (jobs d) (recruiters d) (tasks d)
           next (next_job_id d) (next_recruiter_id d) (next_task_id d) t.
Definition set_jobs (d : database) (l : list job) (next : Z) (t : Z) : database :=
  Database (companies d) l (recruiters d) (tasks d)
           (next_company_id d) next (next_recruiter_id d) (next_task_id d) t.
Definition set_recruiters (d : database) (l : list recruiter) (next : Z) (t : Z) : database :=
  Database (companies d) (jobs d) l (tasks d)
           (next_company_id d) (next_job_id d) next (next_task_id d) t.
Definition set_tasks (d : database) (l : list task) (next : Z) (t : Z) : database :=
  Database (companies d) (jobs d) (recruiters d) l
           (next_company_id d) (next_job_id d) (next_recruiter_id d) next t.

(** What a statement does to the tables when the backend accepts it.
    INSERT appends one row under a fresh identifier, UPDATE ... WHERE id
    rewrites the named columns of the matching rows, DELETE ... WHERE id
    removes them. *)
Definition run_statement (s : statement) (d : database) : database :=
  match s with
  | InsertCompany name sector_val web notes_val src =>
      set_companies d
        (companies d ++ [Company (next_company_id d) name sector_val web notes_val src (now d)])
        (next_company_id d + 1) (now d + 1)
  | UpdateCompany name sector_val web notes_val src id =>
      set_companies d
        (map (λ r, if bool_decide (co_company_id r = id)
                   then Company id name sector_val web notes_val src (co_created_at r)
                   else r) (companies d))
        (next_company_id d) (now d)
  | DeleteCompany id =>
      set_companies d
        (filter (λ r, co_company_id r ≠ id) (companies d))
        (next_company_id d) (now d)
  | InsertJob title comp_id loc stat url notes_val date_f =>
      set_jobs d
        (jobs d ++ [Job (next_job_id d) title comp_id loc stat url notes_val date_f (now d)])
        (next_job_id d + 1) (now d + 1)
  | UpdateJob title comp_id loc stat url notes_val date_f j_id =>
      set_jobs d
        (map (λ r, if bool_decide (jb_job_id r = j_id)
                   then Job j_id title comp_id loc stat url notes_val date_f
                            (jb_created_at r)
                   else r) (jobs d))
        (next_job_id d) (now d)
  | DeleteJob id =>
      set_jobs d (filter (λ r, jb_job_id r ≠ id) (jobs d)) (next_job_id d) (now d)
  | InsertRecruiter name agency_id contact notes_val date_f =>
      set_recruiters d
        (recruiters d ++
           [Recruiter (next_recruiter_id d) name agency_id contact notes_val date_f (now d)])
        (next_recruiter_id d + 1) (now d + 1)
  | UpdateRecruiter name agency_id contact notes_val date_f id =>
      set_recruiters d
        (map (λ r, if bool_decide (rc_recruiter_id r = id)
                   then Recruiter id name agency_id contact notes_val date_f (rc_created_at r)
                   else r) (recruiters d))
        (next_recruiter_id d) (now d)
  | DeleteRecruiter id =>
      set_recruiters d
        (filter (λ r, rc_recruiter_id r ≠ id) (recruiters d))
        (next_recruiter_id d) (now d)
  | InsertTask desc due stat prio notes_val j_id rec_id comp_id =>
      set_tasks d
        (tasks d ++
           [Task (next_task_id d) desc due stat prio notes_val j_id rec_id comp_id (now d)])
        (next_task_id d + 1) (now d + 1)
  | UpdateTask desc due stat prio notes_val j_id rec_id comp_id task_id =>
      set_tasks d
        (map (λ r, if bool_decide (tk_task_id r = task_id)
                   then Task task_id desc due stat prio notes_val j_id rec_id comp_id
                             (tk_created_at r)
                   else r) (tasks d))
        (next_task_id d) (now d)
  | DeleteTask id =>
      set_tasks d (filter (λ r, tk_task_id r ≠ id) (tasks d)) (next_task_id d) (now d)
  end.

(** ** The connection and the script's state *)

(** The psycopg2 connection [conn] shared by the whole script.
    [durable] is what has been committed, [working] is what the open
    transaction sees (psycopg2 opens one implicitly and keeps it until
    [commit] or [rollback]).  [faults] is the backend's behaviour for the
    calls to come: the head says whether the next [execute], [commit] or
    [rollback] raises (backend unreachable, connection closed, constraint
    violated, transaction aborted, ...); an empty schedule is a healthy
    backend. *)
Record connection := Connection {
  durable : database;
  working : database;
  faults : list bool
}.

(** [st.session_state], as initialised at lines 292-299. *)
Record session_state := SessionState {
  selected_job_id_for_edit : option Z;
  confirm_delete_job_id : option Z;
  selected_recruiter_id_for_edit : option Z;
  confirm_delete_recruiter_id : option Z;
  selected_company_id_for_edit : option Z;
  confirm_delete_company_id : option Z;
  selected_task_id_for_edit : option Z;
  confirm_delete_task_id : option Z
}.

Definition initial_session : session_state :=
  SessionState None None None None None None None None.

(** What the script shows: [st.error], [st.success], [st.warning],
    [st.info].  An f-string that prints the exception, or the identifier
    next to it, keeps its fixed part only. *)
Inductive message :=
  | StError (text : string)
  | StSuccess (text : string)
  | StWarning (text : string)
  | StInfo (text : string).

Record world := World {
  conn : connection;
  session : session_state;
  shown : list message
}.

(** [DbError] stands for every exception the [except (Exception,
    psycopg2.Error)] clauses catch.  [st.rerun()] raises Streamlit's
    rerun exception, which derives from [BaseException], ends the pass
    and is not caught by those clauses. *)
Inductive exn := DbError | RerunException.

Inductive outcome (A : Type) :=
  | Returned (a : A)
  | Raised (e : exn).
Arguments Returned {A} a.
Arguments Raised {A} e.

(** A piece of the script: it runs in a world and either returns or
    raises, and what it did to the world before raising stays done. *)
Definition script (A : Type) : Type := world → outcome A * world.

Global Instance script_ret : MRet script := λ A a w, (Returned a, w).
Global Instance script_bind : MBind script := λ A B f m w,
  match m w with
  | (Returned a, w') => f a w'
  | (Raised e, w') => (Raised e, w')
  end.
Global Instance script_throw : MThrow exn script := λ A e w, (Raised e, w).

(** [try: body except (Exception, psycopg2.Error): handler] *)
Definition try_except {A} (body handler : script A) : script A := λ w,
  match body w with
  | (Raised DbError, w') => handler w'
  | r => r
  end.

Definition get_conn : script connection := λ w, (Returned (conn w), w).
Definition put_conn (c : connection) : script unit := λ w,
  (Returned (), World c (session w) (shown w)).
Definition get_session : script session_state := λ w, (Returned (session w), w).
Definition put_session (s : session_state) : script unit := λ w,
  (Returned (), World (conn w) s (shown w)).
Definition emit (m : message) : script unit := λ w,
  (Returned (), World (conn w) (session w) (shown w ++ [m])).

Definition st_error (text : string) : script unit := emit (StError text).
Definition st_success (text : string) : script unit := emit (StSuccess text).
Definition st_warning (text : string) : script unit := emit (StWarning text).
Definition st_info (text : string) : script unit := emit (StInfo text).
Definition st_rerun {A} : script A := mthrow RerunException.

(** One round trip to the backend: it takes the head of the fault
    schedule and raises when the head says so. *)
Definition backend_call : script unit :=
  c ← get_conn;
  match faults c with
  | true :: fs => put_conn (Connection (durable c) (working c) fs);; mthrow DbError
  | false :: fs => put_conn (Connection (durable c) (working c) fs)
  | [] => mret ()
  end.

(** [cur.execute(statement, params)] for a write statement.  A statement
    that raises leaves what the transaction sees as it was; whether the
    backend had drawn from a sequence before raising is not modelled,
    and the properties of failed writes speak of the rows only. *)
Definition execute (s : statement) : script unit :=
  backend_call;;
  c ← get_conn;
  put_conn (Connection (durable c) (run_statement s (working c)) (faults c)).

(** [cur.execute(query, params)] followed by the fetch, for a SELECT. *)
Definition execute_query {A} (q : database → A) : script A :=
  backend_call;;
  c ← get_conn;
  mret (q (working c)).

(** [db_conn.commit()] *)
Definition commit : script unit :=
  backend_call;;
  c ← get_conn;
  put_conn (Connection (working c) (working c) (faults c)).

(** What a transaction sees once it has been rolled back: the committed
    rows again.  The sequences and the clock are not transactional, they
    stay where the transaction left them. *)
Definition rolled_back (committed uncommitted : database) : database :=
  Database (companies committed) (jobs committed)
           (recruiters committed) (tasks committed)
           (next_company_id uncommitted) (next_job_id uncommitted)
           (next_recruiter_id uncommitted) (next_task_id uncommitted)
           (now uncommitted).

(** [db_conn.rollback()]: a round trip like the others, so it raises on
    a connection that is gone, and then nothing is restored. *)
Definition rollback : script unit :=
  backend_call;;
  c ← get_conn;
  put_conn (Connection (durable c) (rolled_back (durable c) (working c)) (faults c)).

(** Python truth values of the arguments the guards test. *)
Definition truthy_str (s : string) : bool := negb (bool_decide (s = "")).
Definition truthy_int (z : Z) : bool := negb (bool_decide (z = 0)).
Definition truthy_id (o : option Z) : bool :=
  match o with Some z => truthy_int z | None => false end.

(** ** The store functions (lines 96-129, 153-163, 182-192, 232-281)

    The first guard of each, [if not db_conn], never fires: the script
    stops at line 26 when there is no connection, and a connection object
    is true.  For the same reason the [if db_conn] of each handler always
    holds, so the handler is [rollback; st.error; return False], and what
    [rollback] raises is not caught by anything. *)

Definition add_new_job (title : string) (comp_id : option Z)
    (loc stat url notes_val : string) (date_f : option Z) : script bool :=
  if negb (truthy_str title) then st_error "Job Title required.";; mret false
  else match comp_id with
  | None => st_error "Company required.";; mret false
  | Some cid =>
      try_except
        (execute (InsertJob title cid loc stat url notes_val date_f);;
         commit;;
         mret true)
        (rollback;; st_error "DB Error (add job)";; mret false)
  end.

Definition update_job_details (j_id : Z) (title : string) (comp_id : option Z)
    (loc stat url notes_val : string) (date_f : option Z) : script bool :=
  if negb (truthy_int j_id && truthy_str title && truthy_str stat)
  then st_error "Job ID, Title, Status required for update.";; mret false
  else match comp_id with
  | None => st_error "Company required for update.";; mret false
  | Some cid =>
      try_except
        (execute (UpdateJob title cid loc stat url notes_val date_f j_id);;
         commit;;
         mret true)
        (rollback;; st_error "DB Error (update job)";; mret false)
  end.

Definition delete_job_record (job_id : Z) : script bool :=
  if negb (truthy_int job_id) then st_error "Job ID required for deletion.";; mret false
  else
    try_except
      (execute (DeleteJob job_id);; commit;; mret true)
      (rollback;; st_error "DB Error (delete job)";; mret false).

Definition add_new_recruiter (name : string) (agency_id : option Z)
    (contact notes_val : string) (date_f : option Z) : script bool :=
  if negb (truthy_str name) then st_error "Recruiter name required";; mret false
  else
    try_except
      (execute (InsertRecruiter name agency_id contact notes_val date_f);;
       commit;;
       mret true)
      (rollback;; st_error "DB Error (add recruiter)";; mret false).

Definition add_new_company (name sector_val web notes_val src : string) : script bool :=
  if negb (truthy_str name) then st_error "Company name required";; mret false
  else
    try_except
      (execute (InsertCompany name sector_val web notes_val src);;
       commit;;
       mret true)
      (rollback;; st_error "DB Error (add company)";; mret false).

Definition add_new_task (desc : string) (due : option Z) (stat : string)
    (prio : option string) (notes_val : string)
    (j_id rec_id comp_id : option Z) : script bool :=
  if negb (truthy_str desc) || negb (truthy_str stat)
  then st_error "Task Description and Status are required";; mret false
  else
    try_except
      (execute (InsertTask desc due stat prio notes_val j_id rec_id comp_id);;
       commit;;
       mret true)
      (rollback;; st_error "DB Error (add task)";; mret false).

Definition update_task_details (task_id : Z) (desc : string) (due : option Z)
    (stat : string) (prio : option string) (notes_val : string)
    (j_id rec_id comp_id : option Z) : script bool :=
  if negb (truthy_int task_id && truthy_str desc && truthy_str stat)
  then st_error "Task ID, Description, Status required for update.";; mret false
  else
    try_except
      (execute (UpdateTask desc due stat prio notes_val j_id rec_id comp_id task_id);;
       commit;;
       mret true)
      (rollback;; st_error "DB Error (update task)";; mret false).

Definition delete_task_record (task_id : Z) : script bool :=
  if negb (truthy_int task_id) then st_error "Task ID required for deletion.";; mret false
  else
    try_except
      (execute (DeleteTask task_id);; commit;; mret true)
      (rollback;; st_error "DB Error (delete task)";; mret false).

(** ** ORDER BY, LEFT JOIN and LIMIT *)

(** A sort key is an integer (identifier, date, timestamp) or a text;
    texts compare byte by byte, the collation of the columns not being
    part of the sources.  A column holds values of one kind, so the two
    mixed cases never meet. *)
Inductive value :=
  | VInt (z : Z)
  | VText (s : string).

Definition value_compare (a b : value) : comparison :=
  match a, b with
  | VInt x, VInt y => Z.compare x y
  | VText x, VText y => String.compare x y
  | VInt _, VText _ => Lt
  | VText _, VInt _ => Gt
  end.

Inductive direction := ASC | DESC.
Inductive nulls_placement := NULLS_FIRST | NULLS_LAST.

(** One term of an ORDER BY clause over rows of type [R]. *)
Record order_term (R : Type) := OrderTerm {
  ot_key : R → option value;
  ot_dir : direction;
  ot_nulls : nulls_placement
}.
Arguments OrderTerm {R} _ _ _.
Arguments ot_key {R} _ _.
Arguments ot_dir {R} _.
Arguments ot_nulls {R} _.

(** PostgreSQL's defaults: NULLS LAST for ASC, NULLS FIRST for DESC. *)
Definition asc {R} (key : R → option value) : order_term R := OrderTerm key ASC NULLS_LAST.
Definition desc {R} (key : R → option value) : order_term R := OrderTerm key DESC NULLS_FIRST.
Definition asc_nulls_last {R} (key : R → option value) : order_term R :=
  OrderTerm key ASC NULLS_LAST.
Definition desc_nulls_last {R} (key : R → option value) : order_term R :=
  OrderTerm key DESC NULLS_LAST.

Definition term_compare {R} (t : order_term R) (r1 r2 : R) : comparison :=
  match ot_key t r1, ot_key t r2 with
  | None, None => Eq
  | None, Some _ => match ot_nulls t with NULLS_LAST => Gt | NULLS_FIRST => Lt end
  | Some _, None => match ot_nulls t with NULLS_LAST => Lt | NULLS_FIRST => Gt end
  | Some a, Some b =>
      match ot_dir t with ASC => value_compare a b | DESC => value_compare b a end
  end.

Fixpoint order_compare {R} (ts : list (order_term R)) (r1 r2 : R) : comparison :=
  match ts with
  | [] => Eq
  | t :: ts' =>
      match term_compare t r1 r2 with
      | Eq => order_compare ts' r1 r2
      | c => c
      end
  end.

(** [r1] may come before [r2] under the clause [ts]. *)
Definition precedes {R} (ts : list (order_term R)) (r1 r2 : R) : Prop :=
  order_compare ts r1 r2 ≠ Gt.

Global Instance precedes_dec {R} (ts : list (order_term R)) : RelDecision (precedes ts).
Proof. intros r1 r2. unfold precedes. apply _. Defined.

(** ORDER BY as a stable sort: rows that tie on every term of the clause
    stay in the order the table holds them, which is how the backend
    hands back the small tables of this program. *)
Fixpoint insert_row {R} (ts : list (order_term R)) (r : R) (sorted : list R) : list R :=
  match sorted with
  | [] => [r]
  | r' :: rest =>
      if decide (precedes ts r r') then r :: r' :: rest
      else r' :: insert_row ts r rest
  end.

Definition order_by {R} (ts : list (order_term R)) (rows : list R) : list R :=
  foldr (insert_row ts) [] rows.

(** [l LEFT JOIN r ON on]: every row of [l] with each of its matches, or
    once with NULLs when it has none. *)
Definition left_join {A B} (on : A → B → bool)
    (l : list A) (r : list B) : list (A * option B) :=
  l ≫= λ a,
    match filter (λ b, on a b) r with
    | [] => [(a, None)]
    | ms => (λ b, (a, Some b)) <$> ms
    end.

Definition limit {A} (count : nat) (rows : list A) : list A := take count rows.

(** ** The read queries (lines 64-94, 140-151, 174-180, 195-230) *)

(** [get_job_status_counts]: the dictionary [c] starts with a zero for
    each status of the list [s]; the query groups the jobs whose status
    is in [s], and the loop stores each group's count. *)
Definition counted_statuses : list string :=
  ["Not Applied"; "Applied"; "Interviewing"; "Offer"].

(** [SELECT status, COUNT( * ) FROM jobs WHERE status = ANY(s) GROUP BY status] *)
Definition status_count_query (s : list string) (d : database) : list (string * Z) :=
  let matching := filter (λ j, jb_status j ∈ s) (jobs d) in
  (λ st_val, (st_val, Z.of_nat (length (filter (λ j, jb_status j = st_val) matching))))
    <$> remove_dups (jb_status <$> matching).

Definition store_count (c : gmap string Z) (r_tuple : string * Z) : gmap string Z :=
  if decide (is_Some (c !! r_tuple.1)) then <[r_tuple.1 := r_tuple.2]> c else c.

Definition get_job_status_counts : script (gmap string Z) :=
  let s := counted_statuses in
  let c : gmap string Z := list_to_map ((λ st_val, (st_val, 0)) <$> s) in
  try_except
    (rows ← execute_query (status_count_query s);
     mret (foldl store_count c rows))
    (st_error "DB Error (job_status_counts)";; mret c).

(** [job_status_options], line 308: the status vocabulary of a job. *)
Definition job_status_options : list string :=
  ["Not Applied"; "Applied"; "Interviewing"; "Rejected"; "Offer"].

(** The columns [get_all_jobs] selects. *)
Record job_listing := JobListing {
  jl_job_id : Z;
  jl_job_title : string;
  jl_company_name : option string;
  jl_company_id : Z;
  jl_location : string;
  jl_status : string;
  jl_job_url : string;
  jl_date_found : option Z;
  jl_notes : string;
  jl_created_at : Z
}.

Definition job_listing_of (r : job * option company) : job_listing :=
  let j := r.1 in
  JobListing (jb_job_id j) (jb_job_title j) (co_company_name <$> r.2) (jb_company_id j)
             (jb_location j) (jb_status j) (jb_job_url j) (jb_date_found j) (jb_notes j)
             (jb_created_at j).

(** [FROM jobs j LEFT JOIN companies c ON j.company_id = c.company_id] *)
Definition jobs_join (d : database) : list (job * option company) :=
  left_join (λ j c, bool_decide (jb_company_id j = co_company_id c)) (jobs d) (companies d).

Definition all_jobs_query (d : database) : list job_listing :=
  order_by [desc (λ r, Some (VInt (jl_created_at r)))] (job_listing_of <$> jobs_join d).

Definition get_all_jobs : script (list job_listing) :=
  try_except
    (execute_query all_jobs_query)
    (st_error "DB Error (get_all_jobs)";; mret []).

(** [get_job_details]: [SELECT j.*, c.company_name ... WHERE j.job_id = %s]
    and [fetchone], which is [None] when no row matches. *)
Definition job_details_query (job_id : Z) (d : database) : option (job * option string) :=
  head ((λ r : job * option company, (r.1, co_company_name <$> r.2))
          <$> filter (λ r : job * option company, jb_job_id r.1 = job_id) (jobs_join d)).

Definition get_job_details (job_id : Z) : script (option (job * option string)) :=
  try_except
    (execute_query (job_details_query job_id))
    (st_error "DB Error (job_details)";; mret None).

(** The columns [get_all_recruiters] selects. *)
Record recruiter_listing := RecruiterListing {
  rl_recruiter_id : Z;
  rl_name : string;
  rl_agency_name : option string;
  rl_agency_company_id : option Z;
  rl_contact_info : string;
  rl_notes : string;
  rl_first_contact_date : option Z;
  rl_created_at : Z
}.

Definition recruiter_listing_of (r : recruiter * option company) : recruiter_listing :=
  let x := r.1 in
  RecruiterListing (rc_recruiter_id x) (rc_name x) (co_company_name <$> r.2)
                   (rc_agency_company_id x) (rc_contact_info x) (rc_notes x)
                   (rc_first_contact_date x) (rc_created_at x).

(** [FROM recruiters r LEFT JOIN companies c
     ON r.agency_company_id = c.company_id] *)
Definition recruiters_join (d : database) : list (recruiter * option company) :=
  left_join (λ r c, bool_decide (rc_agency_company_id r = Some (co_company_id c)))
            (recruiters d) (companies d).

Definition all_recruiters_query (d : database) : list recruiter_listing :=
  order_by [asc (λ r, Some (VText (rl_name r)))]
    (recruiter_listing_of <$> recruiters_join d).

Definition get_all_recruiters : script (list recruiter_listing) :=
  try_except
    (execute_query all_recruiters_query)
    (st_error "DB Error (recruiters)";; mret []).

(** [SELECT * FROM companies ORDER BY company_name ASC] *)
Definition all_companies_query (d : database) : list company :=
  order_by [asc (λ r, Some (VText (co_company_name r)))] (companies d).

Definition get_all_companies : script (list company) :=
  try_except
    (execute_query all_companies_query)
    (st_error "DB Error (companies)";; mret []).

(** A task with the job, the recruiter and the company it links to:
    [FROM tasks t LEFT JOIN jobs j ... LEFT JOIN recruiters r ...
     LEFT JOIN companies cy ...]. *)
Definition task_row : Type := task * option job * option recruiter * option company.

Definition task_of (r : task_row) : task := r.1.1.1.

Definition tasks_join (d : database) : list task_row :=
  left_join (λ (r : task * option job * option recruiter) cy,
               bool_decide (tk_company_id r.1.1 = Some (co_company_id cy)))
    (left_join (λ (r : task * option job) rc,
                  bool_decide (tk_recruiter_id r.1 = Some (rc_recruiter_id rc)))
       (left_join (λ t j, bool_decide (tk_job_id t = Some (jb_job_id j)))
                  (tasks d) (jobs d))
       (recruiters d))
    (companies d).

Definition due_date_key (r : task_row) : option value := VInt <$> tk_due_date (task_of r).
Definition priority_key (r : task_row) : option value := VText <$> tk_priority (task_of r).
Definition status_key (r : task_row) : option value := Some (VText (tk_status (task_of r))).
Definition created_at_key (r : task_row) : option value :=
  Some (VInt (tk_created_at (task_of r))).

(** The columns [get_upcoming_tasks] selects. *)
Record upcoming_task := UpcomingTask {
  ut_task_id : Z;
  ut_task_description : string;
  ut_due_date : option Z;
  ut_status : string;
  ut_priority : option string;
  ut_job_title : option string;
  ut_recruiter_name : option string;
  ut_related_company_name : option string
}.

Definition upcoming_task_of (r : task_row) : upcoming_task :=
  let t := task_of r in
  UpcomingTask (tk_task_id t) (tk_task_description t) (tk_due_date t) (tk_status t)
               (tk_priority t) (jb_job_title <$> r.1.1.2) (rc_name <$> r.1.2)
               (co_company_name <$> r.2).

(** [WHERE t.status NOT IN ('Completed', 'Cancelled')
     ORDER BY t.due_date ASC NULLS LAST, t.priority ASC NULLS LAST, t.created_at ASC
     LIMIT count], [count] being a number of rows. *)
Definition upcoming_tasks_rows (count : nat) (d : database) : list task_row :=
  limit count
    (order_by [asc_nulls_last due_date_key; asc_nulls_last priority_key; asc created_at_key]
       (filter (λ r, tk_status (task_of r) ∉ ["Completed"; "Cancelled"]) (tasks_join d))).

Definition upcoming_tasks_query (count : nat) (d : database) : list upcoming_task :=
  upcoming_task_of <$> upcoming_tasks_rows count d.

Definition get_upcoming_tasks (count : nat) : script (list upcoming_task) :=
  try_except
    (execute_query (upcoming_tasks_query count))
    (st_error "DB Error (upcoming_tasks)";; mret []).

(** The columns [get_all_tasks] selects. *)
Record task_listing := TaskListing {
  tl_task_id : Z;
  tl_task_description : string;
  tl_due_date : option Z;
  tl_status : string;
  tl_priority : option string;
  tl_notes : string;
  tl_job_title : option string;
  tl_job_id : option Z;
  tl_recruiter_name : option string;
  tl_recruiter_id : option Z;
  tl_related_company_name : option string;
  tl_company_id : option Z
}.

Definition task_listing_of (r : task_row) : task_listing :=
  let t := task_of r in
  TaskListing (tk_task_id t) (tk_task_description t) (tk_due_date t) (tk_status t)
              (tk_priority t) (tk_notes t)
              (jb_job_title <$> r.1.1.2) (tk_job_id t)
              (rc_name <$> r.1.2) (tk_recruiter_id t)
              (co_company_name <$> r.2) (tk_company_id t).

(** [ORDER BY t.due_date ASC NULLS LAST, t.status ASC,
     t.priority DESC NULLS LAST, t.created_at DESC] *)
Definition all_tasks_rows (d : database) : list task_row :=
  order_by [asc_nulls_last due_date_key; asc status_key;
            desc_nulls_last priority_key; desc created_at_key]
    (tasks_join d).

Definition all_tasks_query (d : database) : list task_listing :=
  task_listing_of <$> all_tasks_rows d.

Definition get_all_tasks : script (list task_listing) :=
  try_except
    (execute_query all_tasks_query)
    (st_error "DB Error (get_all_tasks)";; mret []).

(** ** The selectbox options (lines 32-55) *)

(** [SELECT id_col, name_col FROM table ORDER BY name_col ASC], for the
    three tables [load_selectbox_options] reads. *)
Definition by_name : list (order_term (Z * string)) := [asc (λ r, Some (VText r.2))].

Definition company_names_query (d : database) : list (Z * string) :=
  order_by by_name ((λ r, (co_company_id r, co_company_name r)) <$> companies d).
Definition job_titles_query (d : database) : list (Z * string) :=
  order_by by_name ((λ r, (jb_job_id r, jb_job_title r)) <$> jobs d).
Definition recruiter_names_query (d : database) : list (Z * string) :=
  order_by by_name ((λ r, (rc_recruiter_id r, rc_name r)) <$> recruiters d).

(** The loop of [get_options]: [options_map[str(row[name_col])] = row[id_col]].
    The names are texts, which [str] leaves as they are. *)
Definition fill_options (options_map : gmap string (option Z))
    (data : list (Z * string)) : gmap string (option Z) :=
  foldl (λ m row, <[row.2 := Some row.1]> m) options_map data.

(** [get_options]; its error goes to [print], not to the page. *)
Definition get_options (query : database → list (Z * string))
    (default_option_text : string) : script (gmap string (option Z)) :=
  let options_map : gmap string (option Z) := {[ default_option_text := None ]} in
  try_except
    (data ← execute_query query;
     mret (fill_options options_map data))
    (mret {[ default_option_text := None ]}).

Definition load_selectbox_options :
    script (gmap string (option Z) * gmap string (option Z) * gmap string (option Z)) :=
  company_opts ← get_options company_names_query "--- Select Company ---";
  job_opts ← get_options job_titles_query "--- Select Job ---";
  recruiter_opts ← get_options recruiter_names_query "--- Select Recruiter ---";
  mret (company_opts, job_opts, recruiter_opts).

(** ** The pages: adding a job (lines 389-418) *)

(** What the form "Add New Job" holds when it is submitted. *)
Record add_job_form := AddJobForm {
  new_job_title : string;
  sel_comp_name_add_job : string;
  new_comp_name_add_job : string;
  new_loc_add_job : string;
  new_stat_add_job : string;
  new_url_add_job : string;
  new_notes_add_job : string;
  new_date_f_add_job : option Z
}.

(** [SELECT company_id FROM companies WHERE company_name = %s
     ORDER BY company_id DESC LIMIT 1] and [fetchone]. *)
Definition new_company_id_query (name : string) (d : database) : option Z :=
  head (limit 1
    (order_by [desc (λ id, Some (VInt id))]
       (co_company_id <$> filter (λ c, co_company_name c = name) (companies d)))).

(** [dict.get]: the value under the key, [None] when the key is missing. *)
Definition dict_get (m : gmap string (option Z)) (key : string) : option Z :=
  default None (m !! key).

(** The handler of "Add Job to Tracker".  [company_options_map] is the
    cached result of [load_selectbox_options]. *)
Definition tab_add_job_submit (company_options_map : gmap string (option Z))
    (f : add_job_form) : script unit :=
  '(is_valid_j, sel_comp_id_add_job) ←
    (if truthy_str (new_comp_name_add_job f) then
       added ← add_new_company (new_comp_name_add_job f) "" "" "" "";
       if added : bool then
         st_success ("Company '" +:+ new_comp_name_add_job f +:+ "' added!");;
         try_except
           (row ← execute_query (new_company_id_query (new_comp_name_add_job f));
            match row with
            | Some company_id => mret (true, Some company_id)
            | None => st_error "Could not retrieve new company ID.";; mret (false, None)
            end)
           (st_error "Error fetching new company ID";; mret (false, None))
       else st_error "Failed to add new company.";; mret (false, None)
     else if truthy_str (sel_comp_name_add_job f)
             && negb (bool_decide (sel_comp_name_add_job f = "--- Select Company ---"))
     then mret (true, dict_get company_options_map (sel_comp_name_add_job f))
     else st_error "Please select or type a company.";; mret (false, None));
  is_valid_j ←
    (if negb (truthy_str (new_job_title f)) then st_error "Title required";; mret false
     else mret is_valid_j);
  if (is_valid_j : bool) && truthy_id sel_comp_id_add_job then
    added ← add_new_job (new_job_title f) sel_comp_id_add_job (new_loc_add_job f)
                        (new_stat_add_job f) (new_url_add_job f) (new_notes_add_job f)
                        (new_date_f_add_job f);
    if added : bool then st_success "Job added!";; st_rerun else mret ()
  else mret ().

(** ** The pages: editing and deleting a job (lines 420-483) *)

Definition set_selected_job_id_for_edit (v : option Z) : script unit :=
  s ← get_session;
  put_session (SessionState v (confirm_delete_job_id s)
    (selected_recruiter_id_for_edit s) (confirm_delete_recruiter_id s)
    (selected_company_id_for_edit s) (confirm_delete_company_id s)
    (selected_task_id_for_edit s) (confirm_delete_task_id s)).

Definition set_confirm_delete_job_id (v : option Z) : script unit :=
  s ← get_session;
  put_session (SessionState (selected_job_id_for_edit s) v
    (selected_recruiter_id_for_edit s) (confirm_delete_recruiter_id s)
    (selected_company_id_for_edit s) (confirm_delete_company_id s)
    (selected_task_id_for_edit s) (confirm_delete_task_id s)).

Definition set_selected_recruiter_id_for_edit (v : option Z) : script unit :=
  s ← get_session;
  put_session (SessionState (selected_job_id_for_edit s) (confirm_delete_job_id s)
    v (confirm_delete_recruiter_id s)
    (selected_company_id_for_edit s) (confirm_delete_company_id s)
    (selected_task_id_for_edit s) (confirm_delete_task_id s)).

Definition set_confirm_delete_recruiter_id (v : option Z) : script unit :=
  s ← get_session;
  put_session (SessionState (selected_job_id_for_edit s) (confirm_delete_job_id s)
    (selected_recruiter_id_for_edit s) v
    (selected_company_id_for_edit s) (confirm_delete_company_id s)
    (selected_task_id_for_edit s) (confirm_delete_task_id s)).

Definition set_selected_company_id_for_edit (v : option Z) : script unit :=
  s ← get_session;
  put_session (SessionState (selected_job_id_for_edit s) (confirm_delete_job_id s)
    (selected_recruiter_id_for_edit s) (confirm_delete_recruiter_id s)
    v (confirm_delete_company_id s)
    (selected_task_id_for_edit s) (confirm_delete_task_id s)).

Definition set_confirm_delete_company_id (v : option Z) : script unit :=
  s ← get_session;
  put_session (SessionState (selected_job_id_for_edit s) (confirm_delete_job_id s)
    (selected_recruiter_id_for_edit s) (confirm_delete_recruiter_id s)
    (selected_company_id_for_edit s) v
    (selected_task_id_for_edit s) (confirm_delete_task_id s)).

(** What the form "Update Job Details" holds when it is submitted. *)
Record edit_job_form := EditJobForm {
  edit_title : string;
  sel_edit_comp_name : string;
  edit_loc : string;
  edit_stat : string;
  edit_url : string;
  edit_notes : string;
  edit_date_f : option Z
}.

(** The button pressed in the pass, if any.  A button's key carries the
    identifier of the job it was drawn for; [st.button] is true only for
    the button with the pressed key. *)
Inductive click :=
  | NoClick
  | SubmitUpdate (f : edit_job_form)
  | RequestDelete (job_id : Z)
  | ConfirmDelete (job_id : Z)
  | CancelDelete (job_id : Z).

Definition request_clicked (ev : click) (job_id : Z) : bool :=
  match ev with RequestDelete k => bool_decide (k = job_id) | _ => false end.
Definition confirm_clicked (ev : click) (job_id : Z) : bool :=
  match ev with ConfirmDelete k => bool_decide (k = job_id) | _ => false end.
Definition cancel_clicked (ev : click) (job_id : Z) : bool :=
  match ev with CancelDelete k => bool_decide (k = job_id) | _ => false end.

(** The body of "Update Job Details" (lines 459-466). *)
Definition update_job_submit (company_options_map : gmap string (option Z))
    (actual_company_names : list string) (job_id : Z) (f : edit_job_form) : script unit :=
  let edit_sel_comp_id :=
    if truthy_str (sel_edit_comp_name f)
       && bool_decide (is_Some (company_options_map !! sel_edit_comp_name f))
    then dict_get company_options_map (sel_edit_comp_name f) else None in
  is_valid_edit_j ←
    (if negb (truthy_str (edit_title f)) then st_error "Title required";; mret false
     else mret true);
  is_valid_edit_j ←
    (if negb (truthy_id edit_sel_comp_id)
        && negb (bool_decide (actual_company_names = []))
     then st_error "Company required";; mret false
     else mret is_valid_edit_j);
  if is_valid_edit_j : bool then
    updated ← update_job_details job_id (edit_title f) edit_sel_comp_id (edit_loc f)
                                 (edit_stat f) (edit_url f) (edit_notes f) (edit_date_f f);
    if updated : bool
    then st_success "Job updated!";; set_selected_job_id_for_edit None;; st_rerun
    else mret ()
  else mret ().

(** The body of "YES, Delete Now" (lines 476-478). *)
Definition confirm_delete_job (job_id : Z) : script unit :=
  deleted ← delete_job_record job_id;
  if deleted : bool then
    st_success "Job deleted!";;
    set_selected_job_id_for_edit None;;
    set_confirm_delete_job_id None;;
    st_rerun
  else mret ().

(** One pass over the tab "Edit/Delete Job".  [sel] is the position of
    the chosen entry among the jobs listed ([None] for "--- Select Job
    ---"): the entry's text ends with the job's identifier, so looking
    it up in [job_map_for_sel] gives the identifier of the row at that
    position. *)
Definition tab_edit_delete_job (company_options_map : gmap string (option Z))
    (actual_company_names : list string) (sel : option nat) (ev : click) : script unit :=
  all_jobs_data_for_sel ← get_all_jobs;
  match all_jobs_data_for_sel with
  | [] => st_info "No jobs to edit/delete."
  | _ =>
      set_selected_job_id_for_edit (jl_job_id <$> (sel ≫= λ i, all_jobs_data_for_sel !! i));;
      s ← get_session;
      match selected_job_id_for_edit s with
      | Some selected =>
          if truthy_int selected then
            job_dets ← get_job_details selected;
            match job_dets with
            | Some (jd, _) =>
                match ev with
                | SubmitUpdate f =>
                    update_job_submit company_options_map actual_company_names
                                      (jb_job_id jd) f
                | _ => mret ()
                end;;
                (if request_clicked ev (jb_job_id jd)
                 then set_confirm_delete_job_id (Some (jb_job_id jd));; st_rerun
                 else mret ());;
                s ← get_session;
                if bool_decide (confirm_delete_job_id s = Some (jb_job_id jd)) then
                  st_error ("FINAL WARNING: Permanently delete '"
                            +:+ jb_job_title jd +:+ "'?");;
                  (if confirm_clicked ev (jb_job_id jd)
                   then confirm_delete_job (jb_job_id jd)
                   else mret ());;
                  (if cancel_clicked ev (jb_job_id jd)
                   then set_confirm_delete_job_id None;; st_rerun
                   else mret ())
                else mret ()
            | None =>
                st_warning "Could not load selected job. It might have been deleted.";;
                set_selected_job_id_for_edit None
            end
          else mret ()
      | None => mret ()
      end
  end.

(** ** The writes the recruiter and company pages issue themselves
       (lines 558-568, 578-585, 652-662, 672-679) *)

Definition recruiter_update_block (recruiter_id : Z) (edit_rec_name : string)
    (edit_agency_id : option Z) (edit_contact edit_notes_val : string)
    (edit_date : option Z) : script unit :=
  try_except
    (execute (UpdateRecruiter edit_rec_name edit_agency_id edit_contact edit_notes_val
                              edit_date recruiter_id);;
     commit;;
     st_success "Recruiter updated!";;
     set_selected_recruiter_id_for_edit None;;
     st_rerun)
    (rollback;; st_error "Error updating recruiter").

Definition recruiter_delete_block (recruiter_id : Z) : script unit :=
  try_except
    (execute (DeleteRecruiter recruiter_id);;
     commit;;
     st_success "Recruiter deleted!";;
     set_selected_recruiter_id_for_edit None;;
     set_confirm_delete_recruiter_id None;;
     st_rerun)
    (rollback;; st_error "Error deleting recruiter").

Definition company_update_block (company_id : Z)
    (edit_comp_name edit_sector edit_web edit_notes_val edit_src : string) : script unit :=
  try_except
    (execute (UpdateCompany edit_comp_name edit_sector edit_web edit_notes_val edit_src
                            company_id);;
     commit;;
     st_success "Company updated!";;
     set_selected_company_id_for_edit None;;
     st_rerun)
    (rollback;; st_error "Error updating company").

Definition company_delete_block (company_id : Z) : script unit :=
  try_except
    (execute (DeleteCompany company_id);;
     commit;;
     st_success "Company deleted!";;
     set_selected_company_id_for_edit None;;
     set_confirm_delete_company_id None;;
     st_rerun)
    (rollback;; st_error "Error deleting company").

(** ** Every write, as a value *)

(** A call of one of the eight store functions that write. *)
Inductive store_call :=
  | CallAddNewJob (title : string) (comp_id : option Z)
      (loc stat url notes_val : string) (date_f : option Z)
  | CallUpdateJobDetails (j_id : Z) (title : string) (comp_id : option Z)
      (loc stat url notes_val : string) (date_f : option Z)
  | CallDeleteJobRecord (job_id : Z)
  | CallAddNewRecruiter (name : string) (agency_id : option Z)
      (contact notes_val : string) (date_f : option Z)
  | CallAddNewCompany (name sector_val web notes_val src : string)
  | CallAddNewTask (desc : string) (due : option Z) (stat : string)
      (prio : option string) (notes_val : string) (j_id rec_id comp_id : option Z)
  | CallUpdateTaskDetails (task_id : Z) (desc : string) (due : option Z) (stat : string)
      (prio : option string) (notes_val : string) (j_id rec_id comp_id : option Z)
  | CallDeleteTaskRecord (task_id : Z).

Definition run_store_call (c : store_call) : script bool :=
  match c with
  | CallAddNewJob title comp_id loc stat url notes_val date_f =>
      add_new_job title comp_id loc stat url notes_val date_f
  | CallUpdateJobDetails j_id title comp_id loc stat url notes_val date_f =>
      update_job_details j_id title comp_id loc stat url notes_val date_f
  | CallDeleteJobRecord job_id => delete_job_record job_id
  | CallAddNewRecruiter name agency_id contact notes_val date_f =>
      add_new_recruiter name agency_id contact notes_val date_f
  | CallAddNewCompany name sector_val web notes_val src =>
      add_new_company name sector_val web notes_val src
  | CallAddNewTask desc due stat prio notes_val j_id rec_id comp_id =>
      add_new_task desc due stat prio notes_val j_id rec_id comp_id
  | CallUpdateTaskDetails task_id desc due stat prio notes_val j_id rec_id comp_id =>
      update_task_details task_id desc due stat prio notes_val j_id rec_id comp_id
  | CallDeleteTaskRecord task_id => delete_task_record task_id
  end.

(** The statement a call sends once its arguments pass the guards;
    [None] when a guard turns the call away before any query. *)
Definition statement_sent (c : store_call) : option statement :=
  match c with
  | CallAddNewJob title comp_id loc stat url notes_val date_f =>
      if truthy_str title
      then (λ cid, InsertJob title cid loc stat url notes_val date_f) <$> comp_id
      else None
  | CallUpdateJobDetails j_id title comp_id loc stat url notes_val date_f =>
      if truthy_int j_id && truthy_str title && truthy_str stat
      then (λ cid, UpdateJob title cid loc stat url notes_val date_f j_id) <$> comp_id
      else None
  | CallDeleteJobRecord job_id =>
      if truthy_int job_id then Some (DeleteJob job_id) else None
  | CallAddNewRecruiter name agency_id contact notes_val date_f =>
      if truthy_str name
      then Some (InsertRecruiter name agency_id contact notes_val date_f) else None
  | CallAddNewCompany name sector_val web notes_val src =>
      if truthy_str name
      then Some (InsertCompany name sector_val web notes_val src) else None
  | CallAddNewTask desc due stat prio notes_val j_id rec_id comp_id =>
      if truthy_str desc && truthy_str stat
      then Some (InsertTask desc due stat prio notes_val j_id rec_id comp_id) else None
  | CallUpdateTaskDetails task_id desc due stat prio notes_val j_id rec_id comp_id =>
      if truthy_int task_id && truthy_str desc && truthy_str stat
      then Some (UpdateTask desc due stat prio notes_val j_id rec_id comp_id task_id)
      else None
  | CallDeleteTaskRecord task_id =>
      if truthy_int task_id then Some (DeleteTask task_id) else None
  end.

(** One of the four writes the recruiter and company pages issue
    themselves, with the statement it sends. *)
Inductive page_write :=
  | RecruiterUpdate (recruiter_id : Z) (edit_rec_name : string)
      (edit_agency_id : option Z) (edit_contact edit_notes_val : string)
      (edit_date : option Z)
  | RecruiterDelete (recruiter_id : Z)
  | CompanyUpdate (company_id : Z)
      (edit_comp_name edit_sector edit_web edit_notes_val edit_src : string)
  | CompanyDelete (company_id : Z).

Definition run_page_write (p : page_write) : script unit :=
  match p with
  | RecruiterUpdate recruiter_id edit_rec_name edit_agency_id edit_contact
                    edit_notes_val edit_date =>
      recruiter_update_block recruiter_id edit_rec_name edit_agency_id edit_contact
                             edit_notes_val edit_date
  | RecruiterDelete recruiter_id => recruiter_delete_block recruiter_id
  | CompanyUpdate company_id edit_comp_name edit_sector edit_web edit_notes_val edit_src =>
      company_update_block company_id edit_comp_name edit_sector edit_web
                           edit_notes_val edit_src
  | CompanyDelete company_id => company_delete_block company_id
  end.

Definition page_statement (p : page_write) : statement :=
  match p with
  | RecruiterUpdate recruiter_id edit_rec_name edit_agency_id edit_contact
                    edit_notes_val edit_date =>
      UpdateRecruiter edit_rec_name edit_agency_id edit_contact edit_notes_val
                      edit_date recruiter_id
  | RecruiterDelete recruiter_id => DeleteRecruiter recruiter_id
  | CompanyUpdate company_id edit_comp_name edit_sector edit_web edit_notes_val edit_src =>
      UpdateCompany edit_comp_name edit_sector edit_web edit_notes_val edit_src company_id
  | CompanyDelete company_id => DeleteCompany company_id
  end.

(** The backend raises during a write: at [execute], or at [commit]
    after an [execute] that went through. *)
Definition write_raises (fs : list bool) : bool :=
  match fs with
  | true :: _ => true
  | false :: true :: _ => true
  | _ => false
  end.

(** The handler's [rollback] raises as well: the round trip that follows
    the one that raised. *)
Definition rollback_raises (fs : list bool) : bool :=
  match fs with
  | true :: true :: _ => true
  | false :: true :: true :: _ => true
  | _ => false
  end.

(** Two states of the store hold the same rows in every table. *)
Definition same_rows (d d' : database) : Prop :=
  companies d = companies d' ∧ jobs d = jobs d'
  ∧ recruiters d = recruiters d' ∧ tasks d = tasks d'.

(** The last thing shown is an error. *)
Definition error_shown (w : world) : Prop :=
  ∃ text, last (shown w) = Some (StError text).

(** ** The orders the listings promise, field by field *)

(** A three-way comparison that behaves like an order: swapping the
    arguments swaps the answer, rows that compare equal compare alike
    with every third row, and "before" is transitive. *)
Definition coherent {R} (c : R → R → comparison) : Prop :=
  (∀ x y, c y x = CompOpp (c x y))
  ∧ (∀ x y, c x y = Eq → ∀ z, c x z = c y z)
  ∧ (∀ x y z, c x y = Lt → c y z = Lt → c x z = Lt).

(** [a] sorts strictly before [b] in byte order. *)
Definition text_before (a b : string) : Prop := String.le a b ∧ a ≠ b.

(** Ascending by [before] with absent values last: a present value
    comes before an absent one, two absent values tie. *)
Definition absent_last {A} (before : A → A → Prop) (a b : option A) : Prop :=
  match a, b with
  | Some x, Some y => before x y
  | Some _, None => True
  | None, _ => False
  end.

(** Due date ascending (absent last), then priority ascending (absent
    last), then creation time ascending. *)
Definition upcoming_order (t1 t2 : task) : Prop :=
  absent_last Z.lt (tk_due_date t1) (tk_due_date t2)
  ∨ tk_due_date t1 = tk_due_date t2
    ∧ (absent_last text_before (tk_priority t1) (tk_priority t2)
       ∨ tk_priority t1 = tk_priority t2
         ∧ (tk_created_at t1 ≤ tk_created_at t2)%Z).

(** Due date ascending (absent last), then status ascending, then
    priority descending (absent last), then creation time, latest
    first. *)
Definition all_tasks_order (t1 t2 : task) : Prop :=
  absent_last Z.lt (tk_due_date t1) (tk_due_date t2)
  ∨ tk_due_date t1 = tk_due_date t2
    ∧ (text_before (tk_status t1) (tk_status t2)
       ∨ tk_status t1 = tk_status t2
         ∧ (absent_last (flip text_before) (tk_priority t1) (tk_priority t2)
            ∨ tk_priority t1 = tk_priority t2
              ∧ (tk_created_at t2 ≤ tk_created_at t1)%Z)).

(** ** Stored states used as examples *)

Definition empty_database : database := Database [] [] [] [] 1 1 1 1 0.

Definition healthy (d : database) : world :=
  World (Connection d d []) initial_session [].

(** A backend that behaves as [fs] says, over the committed state [d]. *)
Definition faulty (d : database) (fs : list bool) : world :=
  World (Connection d d fs) initial_session [].

(** One company and five jobs with the statuses Applied, Applied,
    Interviewing, Offer, Not Applied. *)
Definition five_jobs : database :=
  let job_of id stat := Job id "Engineer" 1 "" stat "" "" None id in
  Database [Company 1 "Acme" "" "" "" "" 0]
           [job_of 1 "Applied"; job_of 2 "Applied"; job_of 3 "Interviewing";
            job_of 4 "Offer"; job_of 5 "Not Applied"]
           [] [] 2 6 1 1 6.

(** A company whose name is the text of the company selectbox's first
    entry. *)
Definition placeholder_named : database :=
  Database [Company 1 "--- Select Company ---" "" "" "" "" 0] [] [] [] 2 1 1 1 1.

(** The identifier of the last row of [data] that carries [name]. *)
Definition last_id_of (name : string) (data : list (Z * string)) : option Z :=
  fst <$> last (filter (λ row, row.2 = name) data).

(** The rows [SELECT id_col, name_col FROM table] ranges over for each of
    the three lookup tables, in the order the table holds them. *)
Definition company_names (d : database) : list (Z * string) :=
  (λ r, (co_company_id r, co_company_name r)) <$> companies d.
Definition job_titles (d : database) : list (Z * string) :=
  (λ r, (jb_job_id r, jb_job_title r)) <$> jobs d.
Definition recruiter_names (d : database) : list (Z * string) :=
  (λ r, (rc_recruiter_id r, rc_name r)) <$> recruiters d.

(** What the specification says of the mapping [m] built under the
    placeholder [text] from the rows [rows], read in that order: next to
    the placeholder's entry it has one entry per distinct name; a row
    that no row of the same name follows is reached through its name;
    and, identifiers being distinct, the identifier of a row that a row
    of the same name follows is reached through no name at all. *)
Definition last_row_wins (text : string) (rows : list (Z * string))
    (m : gmap string (option Z)) : Prop :=
  dom m = {[ text ]} ∪ list_to_set rows.*2
  ∧ (∀ (l1 : list (Z * string)) id name l2,
       rows = (l1 ++ (id, name) :: l2)%list → name ∉ l2.*2 →
       m !! name = Some (Some id))
  ∧ (NoDup rows.*1 →
     ∀ (l1 : list (Z * string)) id name l2,
       rows = (l1 ++ (id, name) :: l2)%list → name ∈ l2.*2 →
       ∀ k, m !! k ≠ Some (Some id)).

(** The entry under the placeholder [text] is reserved in [m]: it maps
    to no identifier, and no other entry does. *)
Definition placeholder_reserved (text : string) (m : gmap string (option Z)) : Prop :=
  m !! text = Some None ∧ ∀ k, m !! k = Some None → k = text.

(** The sequence of company identifiers is ahead of every stored
    company. *)
Definition company_ids_fresh (d : database) : Prop :=
  Forall (λ c, co_company_id c < next_company_id d) (companies d).

(** A form that types the new company name "Globex" for a job. *)
Definition globex_form : add_job_form :=
  AddJobForm "Engineer" "--- Select Company ---" "Globex" "Berlin" "Applied" "" "" None.

(** A session that still holds a pending delete for job 7, which the
    store no longer has. *)
Definition pending_on_missing_job : world :=
  World (Connection five_jobs five_jobs [])
        (SessionState (Some 7) (Some 7) None None None None None None) [].

(** ** Proof steps shared by the properties *)

(** Case analysis on the first decision the goal branches on. *)
Ltac on_decision H :=
  match goal with |- context [decide ?P] => destruct (decide P) as [H|H] end.

(** Unfolds the plumbing of a script run, down to the queries and the
    statements. *)
Ltac run_script :=
  cbv [mbind script_bind mret script_ret mthrow script_throw try_except
       execute execute_query commit rollback backend_call
       get_conn put_conn get_session put_session emit
       st_error st_success st_warning st_info st_rerun
       conn session shown durable working faults
       negb andb orb fst snd truthy_id].

(** Unfolds a pass over the tab "Edit/Delete Job" down to the queries,
    the statements and the tests of the buttons. *)
Ltac run_page :=
  cbv [tab_edit_delete_job get_all_jobs get_job_details confirm_delete_job
       set_selected_job_id_for_edit set_confirm_delete_job_id
       mbind script_bind mret script_ret mthrow script_throw try_except
       execute execute_query commit rollback backend_call
       get_conn put_conn get_session put_session emit
       st_error st_success st_warning st_info st_rerun
       conn session shown durable working faults
       selected_job_id_for_edit confirm_delete_job_id
       selected_recruiter_id_for_edit confirm_delete_recruiter_id
       selected_company_id_for_edit confirm_delete_company_id
       selected_task_id_for_edit confirm_delete_task_id
       option_bind fmap option_fmap option_map
       negb andb orb fst snd truthy_id].

(** ** The remaining read functions (lines 58-62, 132-138, 166-172, 244-257) *)

(** [SELECT COUNT( * ) FROM jobs] *)
Definition get_total_jobs_count : script Z :=
  try_except
    (execute_query (λ d, Z.of_nat (length (jobs d))))
    (st_error "DB Error (total_jobs)";; mret 0).

(** [SELECT recruiter_id, name, created_at FROM recruiters
     ORDER BY created_at DESC LIMIT count] *)
Definition recent_recruiters_query (count : nat) (d : database) : list (Z * string * Z) :=
  limit count
    (order_by [desc (λ r : Z * string * Z, Some (VInt r.2))]
       ((λ r, (rc_recruiter_id r, rc_name r, rc_created_at r)) <$> recruiters d)).

Definition get_recent_recruiters (count : nat) : script (list (Z * string * Z)) :=
  try_except
    (execute_query (recent_recruiters_query count))
    (st_error "DB Error (recent_recruiters)";; mret []).

(** [SELECT company_id, company_name, created_at FROM companies
     ORDER BY created_at DESC LIMIT count] *)
Definition recent_companies_query (count : nat) (d : database) : list (Z * string * Z) :=
  limit count
    (order_by [desc (λ r : Z * string * Z, Some (VInt r.2))]
       ((λ r, (co_company_id r, co_company_name r, co_created_at r)) <$> companies d)).

Definition get_recent_companies (count : nat) : script (list (Z * string * Z)) :=
  try_except
    (execute_query (recent_companies_query count))
    (st_error "DB Error (recent_companies)";; mret []).

(** [get_task_details]: [SELECT t.*, j.job_title, r.name, cy.company_name
     ... WHERE t.task_id = %s] and [fetchone]. *)
Definition task_details : Type := task * option string * option string * option string.

Definition task_details_of (r : task_row) : task_details :=
  (task_of r, jb_job_title <$> r.1.1.2, rc_name <$> r.1.2, co_company_name <$> r.2).

Definition task_details_query (task_id : Z) (d : database) : option task_details :=
  head (task_details_of
          <$> filter (λ r, tk_task_id (task_of r) = task_id) (tasks_join d)).

Definition get_task_details (task_id : Z) : script (option task_details) :=
  try_except
    (execute_query (task_details_query task_id))
    (st_error "DB Error (task_details)";; mret None).

(** ** The dashboard (lines 314-327) *)

(** [job_statuses_val.get(key, 0)] *)
Definition counts_get (m : gmap string Z) (key : string) : Z := default 0 (m !! key).

Record dashboard_view := DashboardView {
  total_jobs_tracked : Z;
  jobs_applied : Z;
  interviews_scheduled : Z;
  offers_received : Z;
  recent_companies_val : list (Z * string * Z);
  recent_recruiters_val : list (Z * string * Z);
  upcoming_tasks_val : list upcoming_task
}.

Definition dashboard : script dashboard_view :=
  total_jobs_val ← get_total_jobs_count;
  job_statuses_val ← get_job_status_counts;
  recent_companies ← get_recent_companies 3;
  recent_recruiters ← get_recent_recruiters 3;
  upcoming_tasks ← get_upcoming_tasks 5;
  mret (DashboardView total_jobs_val
         (counts_get job_statuses_val "Applied")
         (counts_get job_statuses_val "Interviewing")
         (counts_get job_statuses_val "Offer")
         recent_companies recent_recruiters upcoming_tasks).

(** ** Selectors over a fixed vocabulary (lines 308-310, 452, 735, 764-768, 795) *)

Definition task_status_options : list string :=
  ["Open"; "In Progress"; "Awaiting Feedback"; "Completed"; "Cancelled"].

Definition task_priority_options : list string := ["---"; "Low"; "Medium"; "High"].

(** [options.index(value)], the position of the first occurrence. *)
Fixpoint list_index (options : list string) (value : string) : nat :=
  match options with
  | [] => 0%nat
  | o :: rest => if decide (o = value) then 0%nat else S (list_index rest value)
  end.

(** [options.index(value) if value in options else 0], the entry an edit
    form preselects for a stored value. *)
Definition edit_stat_idx (options : list string) (value : string) : nat :=
  if decide (value ∈ options) then list_index options value else 0%nat.

(** The same for the priority, which may be NULL: [None in options] is
    false. *)
Definition edit_prio_idx (priority : option string) : nat :=
  match priority with
  | Some p => edit_stat_idx task_priority_options p
  | None => 0%nat
  end.

(** [prio if prio != "---" else None] *)
Definition final_task_priority (prio : string) : option string :=
  if decide (prio = "---") then None else Some prio.

(** What an edit form left as it was preselected sends back for the
    priority: the preselected entry, through [final_task_priority]. *)
Definition resaved_priority (priority : option string) : option string :=
  task_priority_options !! edit_prio_idx priority ≫= final_task_priority.

(** ** The pages: adding a recruiter, a company, a task
       (lines 510-518, 617-621, 728-737) *)

Record add_recruiter_form := AddRecruiterForm {
  new_rec_name : string;
  sel_agency_name_add_rec : string;
  new_contact_add_rec : string;
  new_notes_add_rec : string;
  new_date_f_add_rec : option Z
}.

Definition tab_add_rec_submit (company_options_map : gmap string (option Z))
    (f : add_recruiter_form) : script unit :=
  let sel_agency_id_add_rec :=
    if truthy_str (sel_agency_name_add_rec f)
       && negb (bool_decide (sel_agency_name_add_rec f
                               ∈ ["--- No Specific Agency ---"; "--- Select Company ---"]))
    then dict_get company_options_map (sel_agency_name_add_rec f)
    else None in
  is_valid_rec_add ←
    (if negb (truthy_str (new_rec_name f)) then st_error "Name required";; mret false
     else mret true);
  if is_valid_rec_add : bool then
    added ← add_new_recruiter (new_rec_name f) sel_agency_id_add_rec
                              (new_contact_add_rec f) (new_notes_add_rec f)
                              (new_date_f_add_rec f);
    if added : bool then st_success "Recruiter added!";; st_rerun else mret ()
  else mret ().

Record add_company_form := AddCompanyForm {
  new_comp_name : string;
  new_sector_add_comp : string;
  new_web_add_comp : string;
  new_notes_add_comp : string;
  new_src_add_comp : string
}.

Definition tab_add_comp_submit (f : add_company_form) : script unit :=
  if negb (truthy_str (new_comp_name f)) then st_error "Company name required"
  else
    added ← add_new_company (new_comp_name f) (new_sector_add_comp f)
                            (new_web_add_comp f) (new_notes_add_comp f)
                            (new_src_add_comp f);
    if added : bool then st_success "Company added!";; st_rerun else mret ().

(** The fields of a task form, for adding and for editing. *)
Record task_form := TaskForm {
  tf_desc : string;
  tf_due : option Z;
  tf_status : string;
  tf_priority : string;
  tf_job_title : string;
  tf_rec_name : string;
  tf_comp_name : string;
  tf_notes : string
}.

(** [options_map.get(name) if name != placeholder else None] *)
Definition link_id (options_map : gmap string (option Z)) (placeholder name : string)
    : option Z :=
  if decide (name = placeholder) then None else dict_get options_map name.

Definition tab_add_task_submit
    (company_options_map job_options_map recruiter_options_map : gmap string (option Z))
    (f : task_form) : script unit :=
  is_valid_task_add ←
    (if negb (truthy_str (tf_desc f)) || negb (truthy_str (tf_status f))
     then st_error "Description and Status are required.";; mret false
     else mret true);
  if is_valid_task_add : bool then
    let task_job_id := link_id job_options_map "--- Select Job ---" (tf_job_title f) in
    let task_rec_id :=
      link_id recruiter_options_map "--- Select Recruiter ---" (tf_rec_name f) in
    let task_comp_id :=
      link_id company_options_map "--- Select Company ---" (tf_comp_name f) in
    added ← add_new_task (tf_desc f) (tf_due f) (tf_status f)
                         (final_task_priority (tf_priority f)) (tf_notes f)
                         task_job_id task_rec_id task_comp_id;
    if added : bool then st_success "Task added!";; st_rerun else mret ()
  else mret ().

(** ** The pages: editing and deleting a task (lines 739-815) *)

Definition set_selected_task_id_for_edit (v : option Z) : script unit :=
  s ← get_session;
  put_session (SessionState (selected_job_id_for_edit s) (confirm_delete_job_id s)
    (selected_recruiter_id_for_edit s) (confirm_delete_recruiter_id s)
    (selected_company_id_for_edit s) (confirm_delete_company_id s)
    v (confirm_delete_task_id s)).

Definition set_confirm_delete_task_id (v : option Z) : script unit :=
  s ← get_session;
  put_session (SessionState (selected_job_id_for_edit s) (confirm_delete_job_id s)
    (selected_recruiter_id_for_edit s) (confirm_delete_recruiter_id s)
    (selected_company_id_for_edit s) (confirm_delete_company_id s)
    (selected_task_id_for_edit s) v).

(** The button pressed in a pass over the tab, with the identifier its
    key carries. *)
Inductive task_click :=
  | NoTaskClick
  | SubmitTaskUpdate (f : task_form)
  | RequestTaskDelete (task_id : Z)
  | ConfirmTaskDelete (task_id : Z)
  | CancelTaskDelete (task_id : Z).

(** The body of "Update Task" (lines 790-799). *)
Definition update_task_submit
    (company_options_map job_options_map recruiter_options_map : gmap string (option Z))
    (task_id : Z) (f : task_form) : script unit :=
  let edit_task_j_id := link_id job_options_map "--- Select Job ---" (tf_job_title f) in
  let edit_task_r_id :=
    link_id recruiter_options_map "--- Select Recruiter ---" (tf_rec_name f) in
  let edit_task_c_id :=
    link_id company_options_map "--- Select Company ---" (tf_comp_name f) in
  let edit_task_prio_val := final_task_priority (tf_priority f) in
  is_valid_edit_t ←
    (if negb (truthy_str (tf_desc f)) || negb (truthy_str (tf_status f))
     then st_error "Desc and Status required";; mret false
     else mret true);
  if is_valid_edit_t : bool then
    updated ← update_task_details task_id (tf_desc f) (tf_due f) (tf_status f)
                                  edit_task_prio_val (tf_notes f)
                                  edit_task_j_id edit_task_r_id edit_task_c_id;
    if updated : bool
    then st_success "Task updated!";; set_selected_task_id_for_edit None;; st_rerun
    else mret ()
  else mret ().

(** The body of "YES, Delete Task Now" (lines 808-810). *)
Definition confirm_delete_task (task_id : Z) : script unit :=
  deleted ← delete_task_record task_id;
  if deleted : bool then
    st_success "Task deleted!";;
    set_selected_task_id_for_edit None;;
    set_confirm_delete_task_id None;;
    st_rerun
  else mret ().

(** One pass over the tab "Edit/Delete Task".  [sel] is the position of
    the chosen entry among the tasks listed: each entry's text starts
    with its position. *)
Definition tab_edit_delete_task
    (company_options_map job_options_map recruiter_options_map : gmap string (option Z))
    (sel : option nat) (ev : task_click) : script unit :=
  all_tasks_for_sel_task ← get_all_tasks;
  match all_tasks_for_sel_task with
  | [] => st_info "No tasks to edit/delete."
  | _ =>
      set_selected_task_id_for_edit
        (tl_task_id <$> (sel ≫= λ i, all_tasks_for_sel_task !! i));;
      s ← get_session;
      match selected_task_id_for_edit s with
      | Some selected =>
          if truthy_int selected then
            task_dets ← get_task_details selected;
            match task_dets with
            | Some (td, _, _, _) =>
                match ev with
                | SubmitTaskUpdate f =>
                    update_task_submit company_options_map job_options_map
                                       recruiter_options_map (tk_task_id td) f
                | _ => mret ()
                end;;
                (match ev with
                 | RequestTaskDelete k =>
                     if bool_decide (k = tk_task_id td)
                     then set_confirm_delete_task_id (Some (tk_task_id td));; st_rerun
                     else mret ()
                 | _ => mret ()
                 end);;
                s ← get_session;
                if bool_decide (confirm_delete_task_id s = Some (tk_task_id td)) then
                  st_error ("FINAL WARNING: Delete task '"
                            +:+ String.substring 0 50 (tk_task_description td)
                            +:+ "...'?");;
                  (match ev with
                   | ConfirmTaskDelete k =>
                       if bool_decide (k = tk_task_id td)
                       then confirm_delete_task (tk_task_id td)
                       else mret ()
                   | _ => mret ()
                   end);;
                  (match ev with
                   | CancelTaskDelete k =>
                       if bool_decide (k = tk_task_id td)
                       then set_confirm_delete_task_id None;; st_rerun
                       else mret ()
                   | _ => mret ()
                   end)
                else mret ()
            | None =>
                st_warning "Could not load selected task.";;
                set_selected_task_id_for_edit None
            end
          else mret ()
      | None => mret ()
      end
  end.

(** ** More stored states and conditions *)

(** The sequence of job identifiers is ahead of every stored job, and
    likewise for the tasks. *)
Definition job_ids_fresh (d : database) : Prop :=
  Forall (λ j, jb_job_id j < next_job_id d) (jobs d).

Definition task_ids_fresh (d : database) : Prop :=
  Forall (λ t, tk_task_id t < next_task_id d) (tasks d).

(** No stored task carries the text of the priority selector's first
    entry as its priority. *)
Definition priorities_clean (d : database) : Prop :=
  Forall (λ t, tk_priority t ≠ Some "---") (tasks d).

(** The five jobs, with two tasks linked to job 3 and one to none. *)
Definition jobs_and_tasks : database :=
  Database (companies five_jobs) (jobs five_jobs) []
           [Task 1 "Prepare" (Some 20) "Open" (Some "High") "" (Some 3) None None 6;
            Task 2 "Follow up" None "Open" None "" (Some 3) None (Some 1) 7;
            Task 3 "Research" (Some 10) "Completed" (Some "Low") "" None None None 8]
           2 6 1 4 9.

Definition example_task_form : task_form :=
  TaskForm "Call back" (Some 30) "Open" "---" "--- Select Job ---"
           "--- Select Recruiter ---" "--- Select Company ---" "".

(** Unfolds a pass over the tab "Edit/Delete Task". *)
Ltac run_task_page :=
  cbv [tab_edit_delete_task get_all_tasks get_task_details confirm_delete_task
       set_selected_task_id_for_edit set_confirm_delete_task_id
       mbind script_bind mret script_ret mthrow script_throw try_except
       execute execute_query commit rollback backend_call
       get_conn put_conn get_session put_session emit
       st_error st_success st_warning st_info st_rerun
       conn session shown durable working faults
       selected_job_id_for_edit confirm_delete_job_id
       selected_recruiter_id_for_edit confirm_delete_recruiter_id
       selected_company_id_for_edit confirm_delete_company_id
       selected_task_id_for_edit confirm_delete_task_id
       option_bind fmap option_fmap option_map
       negb andb orb fst snd truthy_id].

(** A piece of the script that only reads: in every world it returns
    without raising and leaves the committed state, the open
    transaction and the session as they were. *)
Definition only_reads {A} (m : script A) : Prop :=
  ∀ w, ∃ a w', m w = (Returned a, w')
    ∧ durable (conn w') = durable (conn w)
    ∧ working (conn w') = working (conn w)
    ∧ session w' = session w.

(** * Properties *)

(** ** Writes: commit on success, roll back on any exception *)

(** What the block [try: execute; commit; return True / except:
    rollback; st.error; return False] does, by the backend's behaviour:
    the handler's [rollback] is a round trip of its own, and what it
    raises leaves the function. *)
Lemma write_block_run (s : statement) (text : string) (w : world) :
  try_except (execute s;; commit;; mret true)
             (rollback;; st_error text;; mret false) w =
  let c := conn w in
  let d' := run_statement s (working c) in
  let failed wk fs := (Returned false,
                       World (Connection (durable c) (rolled_back (durable c) wk) fs)
                             (session w) (shown w ++ [StError text])) in
  let raised wk fs := (Raised DbError,
                       World (Connection (durable c) wk fs) (session w) (shown w)) in
  let done fs := (Returned true, World (Connection d' d' fs) (session w) (shown w)) in
  match faults c with
  | true :: true :: fs => raised (working c) fs
  | true :: false :: fs => failed (working c) fs
  | [true] => failed (working c) []
  | false :: true :: true :: fs => raised d' fs
  | false :: true :: false :: fs => failed d' fs
  | [false; true] => failed d' []
  | false :: false :: fs => done fs
  | [false] => done []
  | [] => done []
  end.
Proof.
  destruct w as [[d wk fs] ss out]; simpl.
  destruct fs as [|[] [|[] [|[] fs]]]; reflexivity.
Qed.

(** The same for a block of a page, which shows its success, updates the
    session and reruns instead of returning. *)
Lemma page_block_run (s : statement) (text : string) (after : script unit) (w : world) :
  try_except (execute s;; commit;; after) (rollback;; st_error text) w =
  let c := conn w in
  let d' := run_statement s (working c) in
  let failed wk fs := (Returned (),
                       World (Connection (durable c) (rolled_back (durable c) wk) fs)
                             (session w) (shown w ++ [StError text])) in
  let raised wk fs := (Raised DbError,
                       World (Connection (durable c) wk fs) (session w) (shown w)) in
  let done fs := try_except after (rollback;; st_error text)
                   (World (Connection d' d' fs) (session w) (shown w)) in
  match faults c with
  | true :: true :: fs => raised (working c) fs
  | true :: false :: fs => failed (working c) fs
  | [true] => failed (working c) []
  | false :: true :: true :: fs => raised d' fs
  | false :: true :: false :: fs => failed d' fs
  | [false; true] => failed d' []
  | false :: false :: fs => done fs
  | [false] => done []
  | [] => done []
  end.
Proof.
  destruct w as [[d wk fs] ss out]; simpl.
  destruct fs as [|[] [|[] [|[] fs]]]; reflexivity.
Qed.

Lemma last_snoc_error (l : list message) (text : string) :
  ∃ text', last (l ++ [StError text]) = Some (StError text').
Proof. exists text. apply last_snoc. Qed.

Lemma same_rows_refl (d : database) : same_rows d d.
Proof. by repeat split. Qed.

(** The claim as the specification words it fails where the handler's
    own [rollback] raises: on a backend that raises at the INSERT and
    again at the rollback, [add_new_job] with valid arguments returns
    nothing, the exception leaves it.  And the writes the pages issue
    inline have no return value to signal with: a failed one ends with
    [None], as a page block that wrote nothing would. *)
Lemma write_with_failing_rollback_returns_nothing :
  let c := CallAddNewJob "Engineer" (Some 1) "" "Applied" "" "" None in
  statement_sent c = Some (InsertJob "Engineer" 1 "" "Applied" "" "" None)
  ∧ write_raises [true; true] = true
  ∧ (run_store_call c (faulty five_jobs [true; true])).1 = Raised DbError
  ∧ (run_store_call c (faulty five_jobs [true; true])).1 ≠ Returned false
  ∧ (run_page_write (CompanyDelete 1) (faulty five_jobs [true])).1 = Returned ().
Proof. vm_compute. by repeat split. Qed.

(** C1, as amended. Every write operation commits only on success, and
    rolls the transaction back on an exception when the rollback itself
    goes through.  For each of the eight store functions, whatever the
    world: when a guard turns the call away it returns False and touches
    nothing; when the statement is sent and the backend raises (at
    execute or at commit) the committed rows are what they were, and, if
    the handler's rollback does not raise too, the open transaction
    shows the committed rows again, an error is shown and False is
    returned; when the backend does not raise, the statement's effect is
    committed whole and True is returned.  The four writes the recruiter
    and company pages issue themselves return nothing: for them the
    failure shows as the error on the page, with no rerun and the
    session unchanged. *)
Theorem writes_commit_or_roll_back (w : world) :
  (∀ (c : store_call) r w', run_store_call c w = (r, w') →
     match statement_sent c with
     | None => r = Returned false ∧ conn w' = conn w
     | Some s =>
         if write_raises (faults (conn w))
         then same_rows (durable (conn w')) (durable (conn w))
              ∧ (rollback_raises (faults (conn w)) = false →
                 r = Returned false
                 ∧ same_rows (working (conn w')) (durable (conn w))
                 ∧ error_shown w')
         else r = Returned true
              ∧ durable (conn w') = run_statement s (working (conn w))
              ∧ working (conn w') = durable (conn w')
     end) ∧
  (∀ (p : page_write) r w', run_page_write p w = (r, w') →
     if write_raises (faults (conn w))
     then same_rows (durable (conn w')) (durable (conn w))
          ∧ session w' = session w
          ∧ (rollback_raises (faults (conn w)) = false →
             r = Returned ()
             ∧ same_rows (working (conn w')) (durable (conn w))
             ∧ error_shown w')
     else r = Raised RerunException
          ∧ durable (conn w') = run_statement (page_statement p) (working (conn w))
          ∧ working (conn w') = durable (conn w')).
Proof.
  split.
  - intros c r w' Hrun.
    destruct c; simpl in Hrun |- *;
      unfold add_new_job, update_job_details, delete_job_record, add_new_recruiter,
        add_new_company, add_new_task, update_task_details, delete_task_record in Hrun;
      rewrite <- ?negb_andb in Hrun;
      repeat match type of Hrun with
        | context [negb ?b] => destruct b eqn:?; simpl in Hrun
        | context [match ?o with Some _ => _ | None => _ end] =>
            is_var o; destruct o; simpl in Hrun
        end;
      simpl;
      try (injection Hrun as <- <-; by destruct w);
      rewrite write_block_run in Hrun; simpl in Hrun;
      destruct (faults (conn w)) as [|[] [|[] [|[] fs]]];
      simpl in *; injection Hrun as <- <-; simpl;
      repeat split; try done; apply last_snoc_error.
  - intros p r w' Hrun.
    destruct p; simpl in Hrun;
      unfold recruiter_update_block, recruiter_delete_block,
        company_update_block, company_delete_block in Hrun;
      rewrite page_block_run in Hrun; simpl in Hrun;
      destruct (faults (conn w)) as [|[] [|[] [|[] fs]]];
      simpl in *; injection Hrun as <- <-; simpl;
      repeat split; try done; apply last_snoc_error.
Qed.

(** ** ORDER BY sorts *)

Lemma string_compare_lt_trans (a b c : string) :
  String.compare a b = Lt → String.compare b c = Lt → String.compare a c = Lt.
Proof.
  intros Hab Hbc.
  assert (String.le a c) as Hac.
  { trans b; unfold String.le, String.leb; [by rewrite Hab | by rewrite Hbc]. }
  unfold String.le, String.leb in Hac.
  destruct (String.compare a c) eqn:Hc; [|done..].
  apply String.compare_eq_iff in Hc as ->.
  rewrite String.compare_antisym, Hbc in Hab. done.
Qed.

Lemma value_compare_coherent : coherent value_compare.
Proof.
  split_and!.
  - intros [x|x] [y|y]; simpl; try done.
    + apply Z.compare_antisym.
    + apply String.compare_antisym.
  - intros [x|x] [y|y] Hxy; simpl in Hxy; try done.
    + by apply Z.compare_eq_iff in Hxy as ->.
    + by apply String.compare_eq_iff in Hxy as ->.
  - intros [x|x] [y|y] [z|z]; simpl; try done.
    + rewrite !Z.compare_lt_iff. lia.
    + apply string_compare_lt_trans.
Qed.

Lemma value_compare_eq (a b : value) : value_compare a b = Eq → a = b.
Proof.
  destruct a as [x|x], b as [y|y]; simpl; try done.
  - by intros ->%Z.compare_eq_iff.
  - by intros ->%String.compare_eq_iff.
Qed.

Lemma term_compare_eq {R} (t : order_term R) (x y : R) :
  term_compare t x y = Eq → ot_key t x = ot_key t y.
Proof.
  unfold term_compare.
  destruct (ot_key t x) as [a|], (ot_key t y) as [b|], (ot_nulls t), (ot_dir t);
    try done; by intros ->%value_compare_eq.
Qed.

Lemma term_compare_coherent {R} (t : order_term R) : coherent (term_compare t).
Proof.
  destruct value_compare_coherent as (Hanti & _ & Htrans).
  split_and!.
  - intros x y. unfold term_compare.
    destruct (ot_key t x) as [a|], (ot_key t y) as [b|], (ot_nulls t), (ot_dir t);
      try done; apply Hanti.
  - intros x y Hxy z. apply term_compare_eq in Hxy.
    unfold term_compare. by rewrite Hxy.
  - intros x y z. unfold term_compare.
    destruct (ot_key t x) as [a|], (ot_key t y) as [b|], (ot_key t z) as [c|],
      (ot_nulls t), (ot_dir t); try done; eauto.
Qed.

(** Comparing by one comparison and, on a tie, by a second one. *)
Lemma lexicographic_coherent {R} (c1 c2 : R → R → comparison) :
  coherent c1 → coherent c2 →
  coherent (λ x y, match c1 x y with Eq => c2 x y | c => c end).
Proof.
  intros (Hanti1 & Heq1 & Htrans1) (Hanti2 & Heq2 & Htrans2).
  assert (∀ x y z, c1 y z = Eq → c1 x y = c1 x z) as Heq1r.
  { intros x y z Hyz.
    assert (c1 z y = Eq) as Hzy by (by rewrite Hanti1, Hyz).
    specialize (Heq1 z y Hzy x).
    rewrite (Hanti1 x y), (Hanti1 x z) in Heq1.
    destruct (c1 x y), (c1 x z); done. }
  split_and!.
  - intros x y. rewrite (Hanti1 x y), (Hanti2 x y).
    by destruct (c1 x y).
  - intros x y Hxy z.
    destruct (c1 x y) eqn:H1; try done.
    by rewrite (Heq1 x y H1 z), (Heq2 x y Hxy z).
  - intros x y z Hxy Hyz.
    destruct (c1 x y) eqn:H1; try done.
    + rewrite (Heq1 x y H1 z). destruct (c1 y z); try done. eauto.
    + destruct (c1 y z) eqn:H2; try done.
      * by rewrite <- (Heq1r x y z H2), H1.
      * by rewrite (Htrans1 x y z H1 H2).
Qed.

Lemma order_compare_coherent {R} (ts : list (order_term R)) : coherent (order_compare ts).
Proof.
  induction ts as [|t ts IH]; simpl.
  - by split_and!.
  - apply (lexicographic_coherent (term_compare t) (order_compare ts));
      [apply term_compare_coherent | done].
Qed.

Lemma precedes_total {R} (ts : list (order_term R)) : Total (precedes ts).
Proof.
  destruct (order_compare_coherent ts) as (Hanti & _ & _).
  intros x y. unfold precedes. rewrite (Hanti x y).
  destruct (order_compare ts x y); simpl; auto.
Qed.

Lemma precedes_transitive {R} (ts : list (order_term R)) : Transitive (precedes ts).
Proof.
  destruct (order_compare_coherent ts) as (Hanti & Heq & Htrans).
  intros x y z. unfold precedes. intros Hxy Hyz.
  destruct (order_compare ts x y) eqn:H1; try done.
  - by rewrite (Heq x y H1 z).
  - destruct (order_compare ts y z) eqn:H2; try done.
    + assert (order_compare ts z y = Eq) as Hzy by (by rewrite Hanti, H2).
      pose proof (Heq z y Hzy x) as Hc.
      rewrite (Hanti x z), (Hanti x y), H1 in Hc.
      destruct (order_compare ts x z); done.
    + by rewrite (Htrans x y z H1 H2).
Qed.

Lemma insert_row_permutation {R} (ts : list (order_term R)) (r : R) (l : list R) :
  insert_row ts r l ≡ₚ r :: l.
Proof.
  induction l as [|r' l IH]; [done|].
  cbn [insert_row]. destruct (decide (precedes ts r r')); [done|].
  rewrite IH. apply Permutation_swap.
Qed.

Lemma insert_row_sorted {R} (ts : list (order_term R)) (r : R) (l : list R) :
  StronglySorted (precedes ts) l → StronglySorted (precedes ts) (insert_row ts r l).
Proof.
  induction 1 as [|r' l Hs IH Hall].
  - repeat constructor.
  - cbn [insert_row]. destruct (decide (precedes ts r r')) as [Hp|Hp].
    + constructor; [by constructor|]. constructor; [done|].
      eapply Forall_impl; [exact Hall|]. intros z Hz.
      exact (precedes_transitive ts _ _ _ Hp Hz).
    + constructor; [done|]. rewrite insert_row_permutation.
      constructor; [|done].
      by destruct (precedes_total ts r r').
Qed.

(** The rows [order_by] returns are the rows it was given, any row of the
    result may come before every row after it, and rows the clause does
    not tell apart keep the order they had. *)
Lemma order_by_sorted {R} (ts : list (order_term R)) (rows : list R) :
  StronglySorted (precedes ts) (order_by ts rows).
Proof.
  induction rows as [|r rows IH]; [constructor|].
  change (order_by ts (r :: rows)) with (insert_row ts r (order_by ts rows)).
  by apply insert_row_sorted.
Qed.

Lemma order_by_permutation {R} (ts : list (order_term R)) (rows : list R) :
  order_by ts rows ≡ₚ rows.
Proof.
  induction rows as [|r rows IH]; [done|].
  change (order_by ts (r :: rows)) with (insert_row ts r (order_by ts rows)).
  by rewrite insert_row_permutation, IH.
Qed.

Lemma insert_row_filter_in {R} (ts : list (order_term R)) (P : R → Prop)
    `{∀ x, Decision (P x)} (r : R) (l : list R) :
  P r → (∀ y, P y → precedes ts r y) →
  filter P (insert_row ts r l) = r :: filter P l.
Proof.
  intros Hr Hties. induction l as [|r' l IH]; cbn [insert_row].
  - by rewrite filter_cons_True.
  - destruct (decide (precedes ts r r')) as [Hp|Hp].
    + by rewrite (filter_cons_True P r).
    + assert (¬ P r') as Hr' by (intros Hr'; apply Hp; by apply Hties).
      by rewrite !(filter_cons_False P r').
Qed.

Lemma insert_row_filter_out {R} (ts : list (order_term R)) (P : R → Prop)
    `{∀ x, Decision (P x)} (r : R) (l : list R) :
  ¬ P r → filter P (insert_row ts r l) = filter P l.
Proof.
  intros Hr. induction l as [|r' l IH]; cbn [insert_row].
  - by rewrite filter_cons_False.
  - destruct (decide (precedes ts r r')) as [Hp|Hp].
    + by rewrite (filter_cons_False P r).
    + destruct (decide (P r')) as [Hr'|Hr'].
      * by rewrite !(filter_cons_True P r'), IH.
      * by rewrite !(filter_cons_False P r').
Qed.

Lemma order_by_stable {R} (ts : list (order_term R)) (P : R → Prop)
    `{∀ x, Decision (P x)} (rows : list R) :
  (∀ x y, P x → P y → precedes ts x y) →
  filter P (order_by ts rows) = filter P rows.
Proof.
  intros Hties. induction rows as [|r rows IH]; [done|].
  change (order_by ts (r :: rows)) with (insert_row ts r (order_by ts rows)).
  destruct (decide (P r)) as [Hr|Hr].
  - rewrite insert_row_filter_in, filter_cons_True, IH; auto.
  - by rewrite insert_row_filter_out, filter_cons_False, IH.
Qed.

Lemma StronglySorted_weaken {A} (R1 R2 : relation A) (l : list A) :
  (∀ x y, R1 x y → R2 x y) → StronglySorted R1 l → StronglySorted R2 l.
Proof.
  intros HR. induction 1 as [|x l Hs IH Hall]; constructor; [done|].
  eapply Forall_impl; [done|]. intros y. apply HR.
Qed.

Lemma StronglySorted_take {A} (R : relation A) (n : nat) (l : list A) :
  StronglySorted R l → StronglySorted R (take n l).
Proof.
  intros Hs. revert n. induction Hs as [|x l Hs IH Hall]; intros [|n]; simpl;
    try constructor; [apply IH|].
  by apply Forall_take.
Qed.

(** ** The listings *)

(** What a read does: the query's rows on a backend that answers, the
    fallback and a shown error on one that raises. *)
Lemma read_run {A} (q : database → A) (text : string) (fallback : A) (w : world) :
  try_except (execute_query q) (st_error text;; mret fallback) w =
  let c := conn w in
  match faults c with
  | true :: fs =>
      (Returned fallback,
       World (Connection (durable c) (working c) fs) (session w)
             (shown w ++ [StError text]))
  | false :: fs =>
      (Returned (q (working c)),
       World (Connection (durable c) (working c) fs) (session w) (shown w))
  | [] => (Returned (q (working c)), w)
  end.
Proof.
  destruct w as [[d wk fs] ss out]; simpl.
  destruct fs as [|[] fs]; reflexivity.
Qed.

Lemma string_compare_lt_before (a b : string) :
  String.compare a b = Lt → text_before a b.
Proof.
  intros Hc. split.
  - unfold String.le, String.leb. by rewrite Hc.
  - intros ->. pose proof (String.compare_antisym b b) as Ha.
    rewrite Hc in Ha. done.
Qed.

Lemma by_text_asc {R} (key : R → string) (x y : R) :
  precedes [asc (λ r, Some (VText (key r)))] x y → String.le (key x) (key y).
Proof.
  unfold precedes, String.le, String.leb; simpl. unfold term_compare; simpl.
  by destruct (String.compare (key x) (key y)).
Qed.

Lemma by_int_desc {R} (key : R → Z) (x y : R) :
  precedes [desc (λ r, Some (VInt (key r)))] x y → (key y ≤ key x)%Z.
Proof.
  unfold precedes; simpl. unfold term_compare; simpl.
  destruct (Z.compare (key y) (key x)) eqn:Hc; try done; intros _.
  - apply Z.compare_eq_iff in Hc. lia.
  - pose proof (proj1 (Z.compare_lt_iff _ _) Hc). lia.
Qed.

Lemma upcoming_clause_order (x y : task_row) :
  precedes [asc_nulls_last due_date_key; asc_nulls_last priority_key; asc created_at_key]
           x y →
  upcoming_order (task_of x) (task_of y).
Proof.
  unfold precedes, upcoming_order; simpl.
  unfold term_compare, due_date_key, priority_key, created_at_key; simpl.
  destruct (tk_due_date (task_of x)) as [dx|], (tk_due_date (task_of y)) as [dy|];
    simpl; try done; [|by left|].
  - destruct (Z.compare dx dy) eqn:Hd; try done.
    2: { intros _. left. by apply Z.compare_lt_iff. }
    apply Z.compare_eq_iff in Hd as ->. intros H. right. split; [done|]. revert H.
    destruct (tk_priority (task_of x)) as [px|], (tk_priority (task_of y)) as [py|];
      simpl; try done; [|by left|].
    + destruct (String.compare px py) eqn:Hp; try done.
      2: { intros _. left. by apply string_compare_lt_before. }
      apply String.compare_eq_iff in Hp as ->. intros H. right. split; [done|].
      destruct (Z.compare _ _) eqn:Hc in H; try done.
      * apply Z.compare_eq_iff in Hc. lia.
      * pose proof (proj1 (Z.compare_lt_iff _ _) Hc). lia.
    + intros H. right. split; [done|].
      destruct (Z.compare _ _) eqn:Hc in H; try done.
      * apply Z.compare_eq_iff in Hc. lia.
      * pose proof (proj1 (Z.compare_lt_iff _ _) Hc). lia.
  - intros H. right. split; [done|]. revert H.
    destruct (tk_priority (task_of x)) as [px|], (tk_priority (task_of y)) as [py|];
      simpl; try done; [|by left|].
    + destruct (String.compare px py) eqn:Hp; try done.
      2: { intros _. left. by apply string_compare_lt_before. }
      apply String.compare_eq_iff in Hp as ->. intros H. right. split; [done|].
      destruct (Z.compare _ _) eqn:Hc in H; try done.
      * apply Z.compare_eq_iff in Hc. lia.
      * pose proof (proj1 (Z.compare_lt_iff _ _) Hc). lia.
    + intros H. right. split; [done|].
      destruct (Z.compare _ _) eqn:Hc in H; try done.
      * apply Z.compare_eq_iff in Hc. lia.
      * pose proof (proj1 (Z.compare_lt_iff _ _) Hc). lia.
Qed.

Lemma all_tasks_clause_order (x y : task_row) :
  precedes [asc_nulls_last due_date_key; asc status_key;
            desc_nulls_last priority_key; desc created_at_key] x y →
  all_tasks_order (task_of x) (task_of y).
Proof.
  assert (∀ sx sy px py (cx cy : Z),
    match String.compare sx sy with
    | Eq =>
        match
          match VText <$> px, VText <$> py with
          | Some a, Some b => value_compare b a
          | Some _, None => Lt
          | None, Some _ => Gt
          | None, None => Eq
          end
        with
        | Eq => match Z.compare cy cx with Eq => Eq | c => c end
        | c => c
        end
    | c => c
    end ≠ Gt →
    text_before sx sy
    ∨ sx = sy ∧ (absent_last (flip text_before) px py ∨ px = py ∧ (cy ≤ cx)%Z)) as Hrest.
  { intros sx sy px py cx cy.
    destruct (String.compare sx sy) eqn:Hs; try done.
    2: { intros _. left. by apply string_compare_lt_before. }
    apply String.compare_eq_iff in Hs as ->. intros H. right. split; [done|]. revert H.
    destruct px as [px|], py as [py|]; simpl; try done; [|by left|].
    - destruct (String.compare py px) eqn:Hp; try done.
      2: { intros _. left. by apply string_compare_lt_before. }
      apply String.compare_eq_iff in Hp as ->. intros H. right. split; [done|].
      destruct (Z.compare cy cx) eqn:Hc; try done.
      + apply Z.compare_eq_iff in Hc. lia.
      + pose proof (proj1 (Z.compare_lt_iff _ _) Hc). lia.
    - intros H. right. split; [done|].
      destruct (Z.compare cy cx) eqn:Hc; try done.
      + apply Z.compare_eq_iff in Hc. lia.
      + pose proof (proj1 (Z.compare_lt_iff _ _) Hc). lia. }
  unfold precedes, all_tasks_order; simpl.
  unfold term_compare, due_date_key, status_key, priority_key, created_at_key; simpl.
  destruct (tk_due_date (task_of x)) as [dx|], (tk_due_date (task_of y)) as [dy|];
    simpl; try done; [|by left|].
  - destruct (Z.compare dx dy) eqn:Hd; try done.
    2: { intros _. left. by apply Z.compare_lt_iff. }
    apply Z.compare_eq_iff in Hd as ->. intros H. right. split; [done|].
    by apply Hrest.
  - intros H. right. split; [done|]. by apply Hrest.
Qed.

(** C8. Whatever the stored state, the listings come in the promised
    order: companies by name ascending, jobs by creation time
    descending, recruiters by name ascending, tasks by due date
    ascending with absent due dates last, then status, then priority
    descending with absent priorities last, then creation time (the
    latest first).  Each listing holds exactly the rows of its table (of
    its join, for the tasks) when the backend answers, and is empty when
    it raises. *)
Theorem listings_ordered (w : world) :
  let d := working (conn w) in
  let answered {A} (rows all : list A) :=
    match faults (conn w) with true :: _ => rows = [] | _ => rows ≡ₚ all end in
  (∃ rows w', get_all_companies w = (Returned rows, w')
     ∧ StronglySorted (λ a b, String.le (co_company_name a) (co_company_name b)) rows
     ∧ answered rows (companies d))
  ∧ (∃ rows w', get_all_jobs w = (Returned rows, w')
     ∧ StronglySorted (λ a b, (jl_created_at b ≤ jl_created_at a)%Z) rows
     ∧ answered rows (job_listing_of <$> jobs_join d))
  ∧ (∃ rows w', get_all_recruiters w = (Returned rows, w')
     ∧ StronglySorted (λ a b, String.le (rl_name a) (rl_name b)) rows
     ∧ answered rows (recruiter_listing_of <$> recruiters_join d))
  ∧ (∃ rows w', get_all_tasks w = (Returned (task_listing_of <$> rows), w')
     ∧ StronglySorted (λ a b, all_tasks_order (task_of a) (task_of b)) rows
     ∧ answered rows (tasks_join d)).
Proof.
  intros d answered. subst answered. simpl.
  unfold get_all_companies, get_all_jobs, get_all_recruiters, get_all_tasks.
  rewrite !read_run. simpl.
  split_and!.
  - destruct (faults (conn w)) as [|[] fs]; eexists _, _;
      (split; [reflexivity|]); (split; [|try done]); try constructor.
    all: try apply order_by_permutation.
    all: eapply StronglySorted_weaken;
      [apply (by_text_asc co_company_name) | apply order_by_sorted].
  - destruct (faults (conn w)) as [|[] fs]; eexists _, _;
      (split; [reflexivity|]); (split; [|try done]); try constructor.
    all: try apply order_by_permutation.
    all: eapply StronglySorted_weaken;
      [apply (by_int_desc jl_created_at) | apply order_by_sorted].
  - destruct (faults (conn w)) as [|[] fs]; eexists _, _;
      (split; [reflexivity|]); (split; [|try done]); try constructor.
    all: try apply order_by_permutation.
    all: eapply StronglySorted_weaken;
      [apply (by_text_asc rl_name) | apply order_by_sorted].
  - unfold all_tasks_query.
    destruct (faults (conn w)) as [|[] fs];
      [exists (all_tasks_rows d) | exists [] | exists (all_tasks_rows d)];
      eexists; (split; [reflexivity|]); (split; [|try done]); try constructor.
    all: try apply order_by_permutation.
    all: eapply StronglySorted_weaken;
      [apply all_tasks_clause_order | apply order_by_sorted].
Qed.

(** C6. The upcoming-tasks query leaves out every task whose status
    is Completed or Cancelled, whatever its due date, returns at most
    [count] rows, and orders them by due date ascending with absent due
    dates last, then priority ascending with absent priorities last,
    then creation time ascending.  The rows are rows of the stored
    tasks; when the backend answers there are as many of them as
    [count] and the open tasks allow. *)
Theorem upcoming_tasks_open_limited_ordered (count : nat) (w : world) :
  let d := working (conn w) in
  let open (r : task_row) :=
    tk_status (task_of r) ≠ "Completed" ∧ tk_status (task_of r) ≠ "Cancelled" in
  ∃ rows w', get_upcoming_tasks count w = (Returned (upcoming_task_of <$> rows), w')
    ∧ Forall (λ u, ut_status u ≠ "Completed" ∧ ut_status u ≠ "Cancelled")
             (upcoming_task_of <$> rows)
    ∧ (length rows ≤ count)%nat
    ∧ StronglySorted (λ a b, upcoming_order (task_of a) (task_of b)) rows
    ∧ Forall (λ r, r ∈ tasks_join d ∧ open r) rows
    ∧ match faults (conn w) with
      | true :: _ => rows = []
      | _ => length rows = (count `min` length (filter open (tasks_join d)))%nat
      end.
Proof.
  intros d open.
  assert (∀ r, r ∈ upcoming_tasks_rows count d → r ∈ tasks_join d ∧ open r) as Hin.
  { intros r Hr. unfold upcoming_tasks_rows, limit in Hr.
    apply subseteq_take in Hr. rewrite order_by_permutation in Hr.
    apply list_elem_of_filter in Hr as [Hst Hr]. split; [done|].
    split; intros Heq; apply Hst; rewrite Heq; repeat constructor. }
  assert (length (upcoming_tasks_rows count d)
          = (count `min` length (filter open (tasks_join d)))%nat) as Hlen.
  { unfold upcoming_tasks_rows, limit. rewrite length_take, order_by_permutation.
    f_equal. f_equal. apply list_filter_iff. intros r. subst open. simpl.
    rewrite !not_elem_of_cons.
    split; [by intros (? & ? & _) | intros [? ?]; split_and!; [done..|]].
    apply not_elem_of_nil. }
  unfold get_upcoming_tasks, upcoming_tasks_query. rewrite read_run. simpl.
  destruct (faults (conn w)) as [|[] fs];
    [exists (upcoming_tasks_rows count d) | exists [] | exists (upcoming_tasks_rows count d)];
    eexists; (split; [reflexivity|]).
  2: { split_and!; try done; simpl; [lia|constructor]. }
  all: split_and!; [ | lia | | by apply Forall_forall | done].
  all: try (apply Forall_fmap, Forall_forall; intros r Hr;
            destruct (Hin r Hr) as [_ Ho]; exact Ho).
  all: eapply StronglySorted_weaken; [apply upcoming_clause_order|];
    apply StronglySorted_take, order_by_sorted.
Qed.

(** ** The status counts *)

Lemma store_count_lookup (c : gmap string Z) (r : string * Z) (k : string) :
  store_count c r !! k
  = if decide (k = r.1 ∧ is_Some (c !! k)) then Some r.2 else c !! k.
Proof.
  unfold store_count. destruct r as [x n]; simpl.
  destruct (decide (is_Some (c !! x))) as [Hx|Hx].
  - rewrite lookup_insert. destruct (decide (x = k)) as [<-|Hne].
    + on_decision Hn; [done|]. by destruct Hn.
    + on_decision Hn; [|done]. by destruct Hn as [-> _].
  - on_decision Hn; [|done]. by destruct Hn as [-> ?].
Qed.

Lemma fold_store_count_lookup (f : string → Z) (l : list string)
    (c : gmap string Z) (k : string) :
  foldl store_count c ((λ x, (x, f x)) <$> l) !! k
  = if decide (k ∈ l ∧ is_Some (c !! k)) then Some (f k) else c !! k.
Proof.
  revert c. induction l as [|x l IH]; intros c.
  - on_decision H; [|done]. destruct H as [H _]. by apply elem_of_nil in H.
  - rewrite fmap_cons. cbn [foldl]. rewrite IH, !store_count_lookup. cbn [fst snd].
    destruct (decide (k = x ∧ is_Some (c !! k))) as [[-> Hs]|Hn].
    + destruct (decide (x ∈ x :: l ∧ is_Some (c !! x))) as [_|Hn];
        [|destruct Hn; split; [left|done]].
      by destruct (decide (x ∈ l ∧ is_Some (Some (f x)))).
    + destruct (decide (k ∈ l ∧ is_Some (c !! k))) as [[Hl Hs]|Hn'].
      * destruct (decide (k ∈ x :: l ∧ is_Some (c !! k))) as [_|Hn'']; [done|].
        destruct Hn''. split; [by right|done].
      * destruct (decide (k ∈ x :: l ∧ is_Some (c !! k))) as [[Hl Hs]|?]; [|done].
        apply elem_of_cons in Hl as [->|Hl]; [by destruct Hn|by destruct Hn'].
Qed.

Lemma zero_counts_lookup (s : list string) (k : string) :
  (list_to_map ((λ st_val, (st_val, 0%Z)) <$> s) : gmap string Z) !! k
  = if decide (k ∈ s) then Some 0%Z else None.
Proof.
  induction s as [|x s IH].
  - on_decision H; [|done]. by apply elem_of_nil in H.
  - rewrite fmap_cons. cbn [list_to_map foldr uncurry fst snd].
    rewrite lookup_insert. destruct (decide (x = k)) as [->|Hne].
    + on_decision Hn; [done|]. destruct Hn. left.
    + rewrite IH. destruct (decide (k ∈ s)) as [Hs|Hs].
      * on_decision Hn; [done|]. destruct Hn. by right.
      * on_decision Hin; [|done].
        apply elem_of_cons in Hin as [->|?]; done.
Qed.

(** The number of stored jobs with a given status. *)
Lemma status_counts_lookup (d : database) (k : string) :
  foldl store_count (list_to_map ((λ st_val, (st_val, 0%Z)) <$> counted_statuses))
        (status_count_query counted_statuses d) !! k
  = if decide (k ∈ counted_statuses)
    then Some (Z.of_nat (length (filter (λ j, jb_status j = k) (jobs d))))
    else None.
Proof.
  unfold status_count_query.
  rewrite (fold_store_count_lookup
    (λ x, Z.of_nat (length (filter (λ j, jb_status j = x)
                               (filter (λ j, jb_status j ∈ counted_statuses) (jobs d)))))).
  rewrite zero_counts_lookup.
  destruct (decide (k ∈ counted_statuses)) as [Hk|Hk].
  - assert (filter (λ j, jb_status j = k)
              (filter (λ j, jb_status j ∈ counted_statuses) (jobs d))
            = filter (λ j, jb_status j = k) (jobs d)) as Hff.
    { rewrite list_filter_filter. apply list_filter_iff. intros j.
      split; [by intros [? ?]|]. intros Hj. split; [done|]. by rewrite Hj. }
    rewrite Hff.
    destruct (decide (k ∈ remove_dups _ ∧ _)) as [_|Hn]; [done|].
    destruct (filter (λ j, jb_status j = k) (jobs d)) as [|j js] eqn:Hfl; [done|].
    exfalso.
    assert (j ∈ filter (λ j, jb_status j = k) (jobs d)) as Hj by (rewrite Hfl; left).
    apply list_elem_of_filter in Hj as [Hjk Hj].
    apply Hn. split; [|by eexists].
    apply elem_of_remove_dups, list_elem_of_fmap. exists j. split; [done|].
    apply list_elem_of_filter. split; [by rewrite Hjk | done].
  - on_decision Hn; [|done]. by destruct Hn as [_ [? ?]].
Qed.

(** C2, as the code has it. [get_job_status_counts] counts over its own
    list of four statuses, Not Applied, Applied, Interviewing, Offer:
    whatever the stored jobs, the dictionary it returns has an entry for
    each of the four and for nothing else, so none for Rejected.  On a
    backend that answers, each of the four maps to the number of jobs
    that have it, 0 when none has; when the query raises, each maps to
    0. *)
Theorem job_status_counts_over_counted_statuses (w : world) :
  ∃ m w', get_job_status_counts w = (Returned m, w')
    ∧ (∀ k, is_Some (m !! k) ↔ k ∈ counted_statuses)
    ∧ m !! "Rejected" = None
    ∧ ∀ k, k ∈ counted_statuses →
        m !! k = Some (match faults (conn w) with
                       | true :: _ => 0
                       | _ => Z.of_nat (length (filter (λ j, jb_status j = k)
                                                       (jobs (working (conn w)))))
                       end).
Proof.
  unfold get_job_status_counts. destruct w as [[d wk fs] ss out].
  destruct fs as [|[] fs]; eexists _, _; (split; [reflexivity|]);
    cbn [conn faults working]; split_and!.
  all: try (intros k; rewrite ?status_counts_lookup, ?zero_counts_lookup;
            destruct (decide (k ∈ counted_statuses)) as [Hk|Hk];
            split; try done; try (by eexists); by intros [? ?]).
  all: try (by rewrite ?status_counts_lookup, ?zero_counts_lookup).
  all: intros k Hk; rewrite ?status_counts_lookup, ?zero_counts_lookup;
    by destruct (decide (k ∈ counted_statuses)).
Qed.

(** C2, as stated, fails: for the jobs Applied, Applied, Interviewing,
    Offer, Not Applied the dictionary holds Not Applied 1, Applied 2,
    Interviewing 1, Offer 1, and no entry for Rejected, which is one of
    the five statuses of [job_status_options]. *)
Lemma job_status_counts_without_rejected :
  "Rejected" ∈ job_status_options
  ∧ ∃ m w', get_job_status_counts (healthy five_jobs) = (Returned m, w')
      ∧ m !! "Not Applied" = Some 1 ∧ m !! "Applied" = Some 2
      ∧ m !! "Interviewing" = Some 1 ∧ m !! "Offer" = Some 1
      ∧ m !! "Rejected" = None
      ∧ m !! "Rejected" ≠ Some 0.
Proof.
  split.
  - unfold job_status_options. repeat constructor.
  - eexists _, _. split; [reflexivity|]. by vm_compute.
Qed.

(** ** The selectbox options *)

Lemma last_id_of_cons (k : string) (row : Z * string) (data : list (Z * string)) :
  last_id_of k (row :: data)
  = match last_id_of k data with
    | Some id => Some id
    | None => if decide (row.2 = k) then Some row.1 else None
    end.
Proof.
  unfold last_id_of. rewrite filter_cons.
  destruct (decide (row.2 = k)); [|by destruct (last _)].
  rewrite last_cons. by destruct (last _).
Qed.

Lemma last_id_of_elem (k : string) (data : list (Z * string)) (id : Z) :
  last_id_of k data = Some id → (id, k) ∈ data.
Proof.
  unfold last_id_of. destruct (last _) as [[id' k']|] eqn:Hl; [|done].
  simpl. intros [= ->]. apply last_Some_elem_of in Hl.
  apply list_elem_of_filter in Hl as [Hk Hin]. simpl in Hk. by subst.
Qed.

Lemma last_id_of_none (k : string) (data : list (Z * string)) :
  last_id_of k data = None ↔ k ∉ data.*2.
Proof.
  unfold last_id_of. rewrite fmap_None, last_None. split.
  - intros Hf Hin. apply list_elem_of_fmap in Hin as ([id k'] & Heq & Hin).
    simpl in Heq. subst k.
    assert ((id, k') ∈ filter (λ row : Z * string, row.2 = k') data) as Hx
      by (by apply list_elem_of_filter).
    rewrite Hf in Hx. by apply elem_of_nil in Hx.
  - intros Hk. destruct (filter _ data) as [|[id k'] l] eqn:Hf; [done|]. exfalso.
    assert ((id, k') ∈ filter (λ row : Z * string, row.2 = k) data) as Hx
      by (rewrite Hf; left).
    apply list_elem_of_filter in Hx as [Heq Hin]. simpl in Heq. subst.
    apply Hk, list_elem_of_fmap. by exists (id, k).
Qed.

(** The last row with a given name decides the entry under that name. *)
Lemma fill_options_lookup (m : gmap string (option Z)) (data : list (Z * string))
    (k : string) :
  fill_options m data !! k
  = match last_id_of k data with
    | Some id => Some (Some id)
    | None => m !! k
    end.
Proof.
  revert m. induction data as [|row data IH]; intros m; [done|].
  unfold fill_options in *. cbn [foldl]. rewrite IH, last_id_of_cons.
  destruct (last_id_of k data); [done|].
  rewrite lookup_insert. by destruct (decide (row.2 = k)).
Qed.

Lemma last_id_of_app (k : string) (l1 l2 : list (Z * string)) (id : Z) :
  k ∉ l2.*2 → last_id_of k (l1 ++ (id, k) :: l2) = Some id.
Proof.
  intros Hk. induction l1 as [|row l1 IH]; simpl.
  - rewrite last_id_of_cons. apply last_id_of_none in Hk. rewrite Hk. simpl.
    by rewrite decide_True.
  - by rewrite last_id_of_cons, IH.
Qed.

Lemma get_options_run (query : database → list (Z * string)) (text : string) (w : world) :
  get_options query text w =
  let c := conn w in
  match faults c with
  | true :: fs =>
      (Returned {[ text := None ]},
       World (Connection (durable c) (working c) fs) (session w) (shown w))
  | false :: fs =>
      (Returned (fill_options {[ text := None ]} (query (working c))),
       World (Connection (durable c) (working c) fs) (session w) (shown w))
  | [] => (Returned (fill_options {[ text := None ]} (query (working c))), w)
  end.
Proof.
  destruct w as [[d wk fs] ss out]; simpl.
  destruct fs as [|[] fs]; reflexivity.
Qed.

Lemma fill_options_reserved (text : string) (data : list (Z * string)) :
  text ∉ data.*2 → placeholder_reserved text (fill_options {[ text := None ]} data).
Proof.
  intros Hno. split.
  - rewrite fill_options_lookup. apply last_id_of_none in Hno. rewrite Hno.
    apply lookup_singleton_eq.
  - intros k. rewrite fill_options_lookup. destruct (last_id_of k data); [done|].
    intros Hk. apply lookup_singleton_Some in Hk. by destruct Hk.
Qed.

Lemma singleton_reserved (text : string) :
  placeholder_reserved text ({[ text := None ]} : gmap string (option Z)).
Proof.
  split; [apply lookup_singleton_eq|].
  intros k Hk. apply lookup_singleton_Some in Hk. by destruct Hk.
Qed.

Lemma get_options_reserved (query : database → list (Z * string)) (text : string)
    (w : world) :
  text ∉ (query (working (conn w))).*2 →
  ∃ m w', get_options query text w = (Returned m, w')
    ∧ working (conn w') = working (conn w)
    ∧ placeholder_reserved text m.
Proof.
  intros Hno. rewrite get_options_run. simpl.
  destruct (faults (conn w)) as [|[] fs]; eexists _, _; (split; [reflexivity|]);
    (split; [done|]); auto using fill_options_reserved, singleton_reserved.
Qed.

Lemma names_query_names {A} (id : A → Z) (name : A → string) (table : list A)
    (text : string) :
  Forall (λ r, name r ≠ text) table →
  text ∉ (order_by by_name ((λ r, (id r, name r)) <$> table)).*2.
Proof.
  intros Hall Hin. apply list_elem_of_fmap in Hin as ([i n] & Heq & Hin).
  simpl in Heq. subst n. rewrite order_by_permutation in Hin.
  apply list_elem_of_fmap in Hin as (r & [= _ Hn] & Hr).
  rewrite Forall_forall in Hall. by apply (Hall r Hr).
Qed.

(** C9, as the code has it. When no company is named "--- Select Company
    ---", no job is titled "--- Select Job ---" and no recruiter is
    named "--- Select Recruiter ---", each of the three mappings holds
    its placeholder entry, mapped to no identifier, and every other
    entry carries an identifier. *)
Theorem options_keep_placeholder (w : world) :
  Forall (λ r, co_company_name r ≠ "--- Select Company ---")
         (companies (working (conn w))) →
  Forall (λ r, jb_job_title r ≠ "--- Select Job ---") (jobs (working (conn w))) →
  Forall (λ r, rc_name r ≠ "--- Select Recruiter ---") (recruiters (working (conn w))) →
  ∃ company_opts job_opts recruiter_opts w',
    load_selectbox_options w = (Returned (company_opts, job_opts, recruiter_opts), w')
    ∧ placeholder_reserved "--- Select Company ---" company_opts
    ∧ placeholder_reserved "--- Select Job ---" job_opts
    ∧ placeholder_reserved "--- Select Recruiter ---" recruiter_opts.
Proof.
  intros Hc Hj Hr. unfold load_selectbox_options, mbind, script_bind.
  destruct (get_options_reserved company_names_query "--- Select Company ---" w)
    as (co & w1 & -> & Hw1 & Hco).
  { by apply names_query_names. }
  destruct (get_options_reserved job_titles_query "--- Select Job ---" w1)
    as (jo & w2 & -> & Hw2 & Hjo).
  { rewrite Hw1. by apply names_query_names. }
  destruct (get_options_reserved recruiter_names_query "--- Select Recruiter ---" w2)
    as (ro & w3 & -> & Hw3 & Hro).
  { rewrite Hw2, Hw1. by apply names_query_names. }
  by exists co, jo, ro, w3.
Qed.

Lemma options_keep_placeholder_witness :
  ∃ company_opts job_opts recruiter_opts w',
    load_selectbox_options (healthy five_jobs)
      = (Returned (company_opts, job_opts, recruiter_opts), w')
    ∧ placeholder_reserved "--- Select Company ---" company_opts
    ∧ placeholder_reserved "--- Select Job ---" job_opts
    ∧ placeholder_reserved "--- Select Recruiter ---" recruiter_opts.
Proof.
  apply (options_keep_placeholder (healthy five_jobs)); simpl;
    repeat (constructor; [done|]); constructor.
Defined.

(** C9, as stated, fails: a company named "--- Select Company ---" takes
    the placeholder's entry, which then maps to that company's
    identifier. *)
Lemma options_placeholder_overwritten :
  ∃ company_opts job_opts recruiter_opts w',
    load_selectbox_options (healthy placeholder_named)
      = (Returned (company_opts, job_opts, recruiter_opts), w')
    ∧ company_opts !! "--- Select Company ---" = Some (Some 1%Z)
    ∧ ¬ placeholder_reserved "--- Select Company ---" company_opts.
Proof.
  eexists _, _, _, _. split; [reflexivity|].
  assert (fill_options {[ "--- Select Company ---" := None ]}
            (company_names_query placeholder_named) !! "--- Select Company ---"
          = Some (Some 1%Z)) as Hl by (by vm_compute).
  split; [exact Hl|]. intros [Hnone _]. cbn in Hnone.
  unfold placeholder_named in Hl. cbn in Hl. congruence.
Qed.

(** A mapping filled from [data] answers for any list [rows] whose last
    row of each name is the one of [data]. *)
Lemma fill_options_last_row_wins (text : string) (data rows : list (Z * string)) :
  (∀ k, last_id_of k data = last_id_of k rows) →
  last_row_wins text rows (fill_options {[ text := None ]} data).
Proof.
  intros Hsame. unfold last_row_wins. split_and!.
  - apply set_eq. intros k. rewrite elem_of_dom, fill_options_lookup, Hsame.
    rewrite elem_of_union, elem_of_singleton, elem_of_list_to_set.
    destruct (last_id_of k rows) as [id|] eqn:Hl.
    + split; [|by eexists]. intros _. right.
      apply last_id_of_elem in Hl. apply list_elem_of_fmap. by exists (id, k).
    + apply last_id_of_none in Hl. split.
      * intros [v Hv]. apply lookup_singleton_Some in Hv. left. by destruct Hv.
      * intros [->|Hin]; [|done]. rewrite lookup_singleton_eq. by eexists.
  - intros l1 id name l2 -> Hlast.
    by rewrite fill_options_lookup, Hsame, last_id_of_app.
  - intros Hnd l1 id name l2 -> Hlater k Hk.
    rewrite fill_options_lookup, Hsame in Hk.
    destruct (last_id_of k (l1 ++ (id, name) :: l2)) as [id'|] eqn:Hl.
    2: { apply lookup_singleton_Some in Hk. by destruct Hk. }
    injection Hk as ->.
    apply list_elem_of_fmap in Hlater as ([id2 n2] & Hn2 & Hin2).
    simpl in Hn2. subst n2.
    apply list_elem_of_split in Hin2 as (l3 & l4 & ->).
    rewrite fmap_app, fmap_cons in Hnd. cbn [fst] in Hnd.
    apply NoDup_app in Hnd as (_ & Hdisj & Hnd).
    apply NoDup_cons in Hnd as [Hnotin _].
    assert (k = name) as ->.
    { apply last_id_of_elem in Hl.
      apply elem_of_app in Hl as [Hl|Hl].
      - exfalso. apply (Hdisj id); [|left].
        apply list_elem_of_fmap. by exists (id, k).
      - apply elem_of_cons in Hl as [[= ->]|Hl]; [done|].
        exfalso. apply Hnotin. apply list_elem_of_fmap. by exists (id, k). }
    replace (l1 ++ (id, name) :: l3 ++ (id2, name) :: l4)%list
      with ((l1 ++ (id, name) :: l3) ++ (id2, name) :: l4)%list in Hl
      by (by rewrite <- app_assoc).
    assert (∃ id3, last_id_of name ((id2, name) :: l4) = Some id3
                   ∧ (id3, name) ∈ (id2, name) :: l4) as (id3 & Hl3 & Hin3).
    { destruct (last_id_of name ((id2, name) :: l4)) as [id3|] eqn:H3.
      - exists id3. split; [done|]. by apply last_id_of_elem.
      - apply last_id_of_none in H3. destruct H3. simpl. left. }
    assert (last_id_of name ((l1 ++ (id, name) :: l3) ++ (id2, name) :: l4)%list
            = Some id3) as Hl'.
    { clear -Hl3. induction (l1 ++ (id, name) :: l3)%list as [|row l IH]; [done|].
      simpl. by rewrite last_id_of_cons, IH. }
    rewrite Hl' in Hl. injection Hl as ->.
    apply Hnotin. apply list_elem_of_fmap. exists (id, name). split; [done|].
    apply elem_of_app. by right.
Qed.

Lemma string_compare_refl (a : string) : String.compare a a = Eq.
Proof.
  pose proof (String.compare_antisym a a) as H.
  by destruct (String.compare a a).
Qed.

(** ORDER BY name keeps the rows of one name in the order the table
    holds them, so the last row of a name is the same in both. *)
Lemma last_id_of_order_by (k : string) (rows : list (Z * string)) :
  last_id_of k (order_by by_name rows) = last_id_of k rows.
Proof.
  unfold last_id_of. rewrite order_by_stable; [done|].
  intros x y Hx Hy. unfold precedes, by_name. simpl.
  unfold term_compare. simpl. rewrite Hx, Hy, string_compare_refl. done.
Qed.

(** A [get_options] whose query the backend answers. *)
Lemma get_options_answered (query : database → list (Z * string)) (text : string)
    (w : world) :
  head (faults (conn w)) ≠ Some true →
  get_options query text w
  = (Returned (fill_options {[ text := None ]} (query (working (conn w)))),
     World (Connection (durable (conn w)) (working (conn w)) (tail (faults (conn w))))
           (session w) (shown w)).
Proof.
  intros Hhead. rewrite get_options_run.
  destruct w as [[d wk fs] ss out]. simpl in *. by destruct fs as [|[] fs].
Qed.

(** C10. Whenever the backend answers the three queries of
    [load_selectbox_options], each mapping it returns is built from a
    snapshot of its table with the last row winning: next to the
    placeholder's entry there is exactly one entry per distinct name
    stored; a row that no row of the same name follows is reached
    through its name; and, identifiers being distinct, the identifier of
    a row that a row of the same name follows is reached through no name
    at all.  This holds for the rows in the order the query returns
    them, and, the query keeping rows of one name in the order they are
    stored, for the rows in the order the table holds them. *)
Theorem options_last_row_wins (w : world) :
  Forall (λ raises : bool, raises = false) (take 3 (faults (conn w))) →
  let d := working (conn w) in
  ∃ company_opts job_opts recruiter_opts w',
    load_selectbox_options w = (Returned (company_opts, job_opts, recruiter_opts), w')
    ∧ (last_row_wins "--- Select Company ---" (company_names_query d) company_opts
       ∧ last_row_wins "--- Select Company ---" (company_names d) company_opts)
    ∧ (last_row_wins "--- Select Job ---" (job_titles_query d) job_opts
       ∧ last_row_wins "--- Select Job ---" (job_titles d) job_opts)
    ∧ (last_row_wins "--- Select Recruiter ---" (recruiter_names_query d) recruiter_opts
       ∧ last_row_wins "--- Select Recruiter ---" (recruiter_names d) recruiter_opts).
Proof.
  intros Hfs d. subst d. destruct w as [[d wk fs] ss out]. cbn [conn faults working] in *.
  assert (head fs ≠ Some true ∧ head (tail fs) ≠ Some true
          ∧ head (tail (tail fs)) ≠ Some true) as (H1 & H2 & H3).
  { destruct fs as [|b1 [|b2 [|b3 fs]]]; cbn [take] in Hfs;
      repeat match goal with
        | H : Forall _ (_ :: _) |- _ => apply Forall_cons in H as [-> H]
        end; by repeat split. }
  unfold load_selectbox_options, mbind, script_bind.
  rewrite get_options_answered by done. cbn [conn faults durable working session shown].
  rewrite get_options_answered by done. cbn [conn faults durable working session shown].
  rewrite get_options_answered by done. cbn [conn faults durable working session shown].
  eexists _, _, _, _. split; [reflexivity|].
  split_and!; apply fill_options_last_row_wins; intros k;
    first [reflexivity | apply last_id_of_order_by].
Qed.

Lemma options_last_row_wins_witness :
  let d := five_jobs in
  ∃ company_opts job_opts recruiter_opts w',
    load_selectbox_options (healthy five_jobs)
      = (Returned (company_opts, job_opts, recruiter_opts), w')
    ∧ (last_row_wins "--- Select Company ---" (company_names_query d) company_opts
       ∧ last_row_wins "--- Select Company ---" (company_names d) company_opts)
    ∧ (last_row_wins "--- Select Job ---" (job_titles_query d) job_opts
       ∧ last_row_wins "--- Select Job ---" (job_titles d) job_opts)
    ∧ (last_row_wins "--- Select Recruiter ---" (recruiter_names_query d) recruiter_opts
       ∧ last_row_wins "--- Select Recruiter ---" (recruiter_names d) recruiter_opts).
Proof.
  apply (options_last_row_wins (healthy five_jobs)). simpl. constructor.
Defined.

(** The five jobs of the example all carry the title "Engineer": the
    job mapping has one entry for it, and it leads to the job stored
    last. *)
Example five_engineers_one_entry :
  ∃ company_opts job_opts recruiter_opts w',
    load_selectbox_options (healthy five_jobs)
      = (Returned (company_opts, job_opts, recruiter_opts), w')
    ∧ job_opts !! "Engineer" = Some (Some 5)
    ∧ (job_titles_query five_jobs).*1 = [1; 2; 3; 4; 5]
    ∧ size job_opts = 2%nat.
Proof.
  eexists _, _, _, _. split; [reflexivity|]. split_and!; by vm_compute.
Qed.

(** ** Adding a job under a new company name *)

Lemma truthy_str_nonempty (s : string) : s ≠ "" → truthy_str s = true.
Proof. intros Hs. unfold truthy_str. by rewrite bool_decide_eq_false_2. Qed.

(** C3, as the code has it. In the flow where the user types a new
    company name: when the company insert fails, no row is written, the
    stored rows are what they were, and the handler ends without
    rerunning if the rollback of [add_new_company] goes through; when
    the insert goes through and the query for the new identifier fails,
    no job is inserted and the jobs are what they were, but the new
    company row stays, committed by [add_new_company]. *)
Theorem add_job_aborts_on_company_failure (company_options_map : gmap string (option Z))
    (f : add_job_form) (w : world) :
  new_comp_name_add_job f ≠ "" →
  working (conn w) = durable (conn w) →
  let after := tab_add_job_submit company_options_map f w in
  let d := durable (conn w) in
  let d' := durable (conn after.2) in
  (write_raises (faults (conn w)) = true →
     same_rows d' d
     ∧ (rollback_raises (faults (conn w)) = false → after.1 = Returned ()))
  ∧ (∀ fs, faults (conn w) = false :: false :: true :: fs →
       after.1 = Returned ()
       ∧ jobs d' = jobs d
       ∧ companies d' = companies d ++
           [Company (next_company_id d) (new_comp_name_add_job f) "" "" "" "" (now d)]).
Proof.
  intros Hname Hclean. apply truthy_str_nonempty in Hname.
  destruct w as [[d wk fs] ss out]. simpl in Hclean. subst wk.
  cbn zeta. unfold tab_add_job_submit, add_new_company. rewrite Hname.
  split.
  - intros Hraise. cbn [conn faults] in Hraise |- *.
    destruct fs as [|[] [|[] [|[] fs]]]; try done;
      run_script; destruct (truthy_str (new_job_title f));
      (split; [apply same_rows_refl|done]).
  - intros fs' Hfs. cbn [conn faults] in Hfs. subst fs.
    run_script. by destruct (truthy_str (new_job_title f)).
Qed.

Lemma add_job_aborts_on_company_failure_witness :
  let after := tab_add_job_submit ∅ globex_form (faulty five_jobs [false; false; true]) in
  after.1 = Returned ()
  ∧ jobs (durable (conn after.2)) = jobs five_jobs
  ∧ companies (durable (conn after.2))
    = companies five_jobs ++ [Company 2 "Globex" "" "" "" "" 6].
Proof.
  refine (proj2 (add_job_aborts_on_company_failure ∅ globex_form
                   (faulty five_jobs [false; false; true]) _ _) [] _);
    [done | reflexivity | reflexivity].
Defined.

(** C3, as stated, fails: the company insert goes through, the query for
    the new identifier raises, the flow stops without a job, and the
    stored state is not what it was: it holds the new company. *)
Lemma add_job_requery_failure_leaves_company :
  let w := faulty five_jobs [false; false; true] in
  let after := tab_add_job_submit ∅ globex_form w in
  after.1 = Returned ()
  ∧ jobs (durable (conn after.2)) = jobs (durable (conn w))
  ∧ durable (conn after.2) ≠ durable (conn w)
  ∧ Company 2 "Globex" "" "" "" "" 6 ∈ companies (durable (conn after.2)).
Proof.
  cbn zeta. split_and!; [reflexivity | reflexivity | discriminate |].
  vm_compute. right. left.
Qed.

(** The query for the new identifier picks the greatest identifier among
    the companies that carry the name. *)
Lemma head_by_id_desc (l : list Z) (mx : Z) :
  mx ∈ l → Forall (λ x, x ≤ mx) l →
  head (limit 1 (order_by [desc (λ id, Some (VInt id))] l)) = Some mx.
Proof.
  intros Hin Hall.
  pose proof (order_by_sorted [desc (λ id, Some (VInt id))] l) as Hs.
  pose proof (order_by_permutation [desc (λ id, Some (VInt id))] l) as Hp.
  destruct (order_by _ l) as [|x s] eqn:Ho.
  { rewrite <- Hp in Hin. by apply elem_of_nil in Hin. }
  simpl. f_equal.
  assert (x ≤ mx) as Hle.
  { rewrite Forall_forall in Hall. apply Hall. rewrite <- Hp. left. }
  rewrite <- Hp in Hin. apply elem_of_cons in Hin as [->|Hin]; [done|].
  apply StronglySorted_inv in Hs as [_ Hx]. rewrite Forall_forall in Hx.
  pose proof (by_int_desc (λ id : Z, id) x mx (Hx mx Hin)) as Hge. simpl in Hge. lia.
Qed.

Lemma new_company_id_after_insert (d : database) (name sector_val web notes_val src : string) :
  company_ids_fresh d →
  new_company_id_query name (run_statement (InsertCompany name sector_val web notes_val src) d)
  = Some (next_company_id d).
Proof.
  intros Hfresh. unfold new_company_id_query. simpl.
  rewrite filter_app, fmap_app, filter_cons_True by done. simpl.
  apply head_by_id_desc.
  - apply elem_of_app. right. left.
  - apply Forall_app. split; [|by repeat constructor].
    apply Forall_fmap, Forall_forall. intros c Hc.
    apply list_elem_of_filter in Hc as [_ Hc].
    unfold company_ids_fresh in Hfresh. rewrite Forall_forall in Hfresh.
    specialize (Hfresh c Hc). simpl. lia.
Qed.

(** One successful run of the flow with a typed company name. *)
Lemma add_job_new_company_run (company_options_map : gmap string (option Z))
    (f : add_job_form) (w : world) :
  new_comp_name_add_job f ≠ "" →
  working (conn w) = durable (conn w) →
  company_ids_fresh (durable (conn w)) →
  let after := tab_add_job_submit company_options_map f w in
  after.1 = Raised RerunException →
  let d := durable (conn w) in
  let d' := durable (conn after.2) in
  companies d' = companies d ++
    [Company (next_company_id d) (new_comp_name_add_job f) "" "" "" "" (now d)]
  ∧ jobs d' = jobs d ++
      [Job (next_job_id d) (new_job_title f) (next_company_id d) (new_loc_add_job f)
           (new_stat_add_job f) (new_url_add_job f) (new_notes_add_job f)
           (new_date_f_add_job f) (now d + 1)]
  ∧ working (conn after.2) = d'
  ∧ next_company_id d' = next_company_id d + 1
  ∧ now d' = now d + 2.
Proof.
  intros Hname Hclean Hfresh. apply truthy_str_nonempty in Hname.
  destruct w as [[d wk fs] ss out]. simpl in Hclean, Hfresh. subst wk.
  cbn zeta. unfold tab_add_job_submit, add_new_company, add_new_job. rewrite Hname.
  pose proof (new_company_id_after_insert d (new_comp_name_add_job f) "" "" "" "" Hfresh)
    as Hq.
  destruct (truthy_str (new_job_title f)) eqn:Htitle;
    destruct (truthy_int (next_company_id d)) eqn:Hid.
  all: destruct fs as [|[] [|[] [|[] [|[] [|[] [|[] fs]]]]]];
    repeat (run_script; first [rewrite Hq | rewrite Hid | rewrite Htitle]);
    run_script; try discriminate.
  all: intros _; simpl; split_and!; try done; lia.
Qed.

Lemma company_ids_fresh_after (d d' : database) (c : company) :
  company_ids_fresh d →
  companies d' = companies d ++ [c] →
  co_company_id c = next_company_id d →
  next_company_id d' = next_company_id d + 1 →
  company_ids_fresh d'.
Proof.
  unfold company_ids_fresh. intros Hf -> Hc ->.
  apply Forall_app. split.
  - eapply Forall_impl; [done|]. simpl. intros; lia.
  - repeat constructor. lia.
Qed.

(** C4. When the flow of a typed company name succeeds, exactly one
    company row is added, under the next identifier and with the typed
    name, and the one job added refers to that identifier.  A second
    successful run with the same name adds a second company row of the
    same name, under the following identifier, and its job refers to
    that second row: names are not deduplicated. *)
Theorem add_job_creates_company_each_time
    (company_options_map company_options_map2 : gmap string (option Z))
    (f f2 : add_job_form) (w : world) :
  new_comp_name_add_job f ≠ "" →
  working (conn w) = durable (conn w) →
  company_ids_fresh (durable (conn w)) →
  let first := tab_add_job_submit company_options_map f w in
  first.1 = Raised RerunException →
  let d := durable (conn w) in
  let d1 := durable (conn first.2) in
  let c1 := Company (next_company_id d) (new_comp_name_add_job f) "" "" "" "" (now d) in
  (companies d1 = companies d ++ [c1]
   ∧ jobs d1 = jobs d ++
       [Job (next_job_id d) (new_job_title f) (co_company_id c1) (new_loc_add_job f)
            (new_stat_add_job f) (new_url_add_job f) (new_notes_add_job f)
            (new_date_f_add_job f) (now d + 1)])
  ∧ (new_comp_name_add_job f2 = new_comp_name_add_job f →
     let second := tab_add_job_submit company_options_map2 f2 first.2 in
     second.1 = Raised RerunException →
     let d2 := durable (conn second.2) in
     let c2 := Company (next_company_id d + 1) (new_comp_name_add_job f) "" "" "" ""
                       (now d + 2) in
     companies d2 = companies d ++ [c1; c2]
     ∧ jobs d2 = jobs d1 ++
         [Job (next_job_id d1) (new_job_title f2) (co_company_id c2) (new_loc_add_job f2)
              (new_stat_add_job f2) (new_url_add_job f2) (new_notes_add_job f2)
              (new_date_f_add_job f2) (now d + 3)]).
Proof.
  intros Hname Hclean Hfresh first Hfirst d d1 c1.
  destruct (add_job_new_company_run company_options_map f w Hname Hclean Hfresh Hfirst)
    as (Hc1 & Hj1 & Hw1 & Hn1 & Ht1).
  fold first d d1 in Hc1, Hj1, Hw1, Hn1, Ht1. split; [done|].
  intros Hsame second Hsecond d2 c2.
  assert (company_ids_fresh d1) as Hfresh1.
  { by apply (company_ids_fresh_after d d1 c1). }
  rewrite <- Hsame in Hname.
  destruct (add_job_new_company_run company_options_map2 f2 first.2 Hname Hw1 Hfresh1
              Hsecond) as (Hc2 & Hj2 & _).
  fold second d1 d2 in Hc2, Hj2.
  rewrite Hc2, Hj2, Hc1, Hn1, Ht1, Hsame. subst c1 c2. simpl.
  rewrite <- app_assoc. split; [done|].
  by replace (now d + 2 + 1) with (now d + 3) by lia.
Qed.

Lemma add_job_creates_company_each_time_witness :
  let first := tab_add_job_submit ∅ globex_form (healthy five_jobs) in
  let second := tab_add_job_submit ∅ globex_form first.2 in
  let c1 := Company 2 "Globex" "" "" "" "" 6 in
  let c2 := Company 3 "Globex" "" "" "" "" 8 in
  (companies (durable (conn first.2)) = companies five_jobs ++ [c1]
   ∧ jobs (durable (conn first.2)) = jobs five_jobs ++
       [Job 6 "Engineer" 2 "Berlin" "Applied" "" "" None 7])
  ∧ companies (durable (conn second.2)) = companies five_jobs ++ [c1; c2]
  ∧ jobs (durable (conn second.2)) = jobs (durable (conn first.2)) ++
      [Job 7 "Engineer" 3 "Berlin" "Applied" "" "" None 9].
Proof.
  pose proof (add_job_creates_company_each_time ∅ ∅ globex_form globex_form
                (healthy five_jobs)) as H.
  cbn zeta in H.
  destruct H as [H1 H2].
  - done.
  - reflexivity.
  - unfold company_ids_fresh. simpl. repeat constructor.
  - reflexivity.
  - split; [exact H1|]. apply H2; reflexivity.
Defined.

(** ** The two-step delete *)

Lemma jobs_join_job (d : database) (r : job * option company) :
  r ∈ jobs_join d → r.1 ∈ jobs d.
Proof.
  unfold jobs_join, left_join. intros Hr.
  apply list_elem_of_bind in Hr as (j & Hr & Hj).
  destruct (filter _ (companies d)) as [|c cs].
  - apply list_elem_of_singleton in Hr as ->. done.
  - apply list_elem_of_fmap in Hr as (c' & -> & _). done.
Qed.

(** A job that is listed can be loaded, and what is loaded is a stored
    job with the identifier asked for. *)
Lemma job_details_of_listed (d : database) (a : job_listing) :
  a ∈ all_jobs_query d →
  ∃ jd cn, job_details_query (jl_job_id a) d = Some (jd, cn)
           ∧ jb_job_id jd = jl_job_id a.
Proof.
  unfold all_jobs_query, job_details_query. rewrite order_by_permutation.
  intros Ha. apply list_elem_of_fmap in Ha as (r & -> & Hr).
  destruct (filter (λ r0 : job * option company, jb_job_id r0.1 = _) (jobs_join d))
    as [|r' rs] eqn:Hf.
  - assert (r ∈ filter (λ r0 : job * option company,
                          jb_job_id r0.1 = jl_job_id (job_listing_of r)) (jobs_join d))
      as Hx by (by apply list_elem_of_filter).
    rewrite Hf in Hx. by apply elem_of_nil in Hx.
  - assert (r' ∈ filter (λ r0 : job * option company,
                           jb_job_id r0.1 = jl_job_id (job_listing_of r)) (jobs_join d))
      as Hx by (rewrite Hf; left).
    apply list_elem_of_filter in Hx as [Hid _].
    simpl. by eexists _, _.
Qed.

Lemma job_details_stored (d : database) (job_id : Z) (jd : job) (cn : option string) :
  job_details_query job_id d = Some (jd, cn) → jd ∈ jobs d ∧ jb_job_id jd = job_id.
Proof.
  unfold job_details_query. intros Hq.
  destruct (filter (λ r0 : job * option company, jb_job_id r0.1 = job_id) (jobs_join d))
    as [|r' rs] eqn:Hf; [done|].
  simpl in Hq. injection Hq as <- _.
  assert (r' ∈ filter (λ r0 : job * option company, jb_job_id r0.1 = job_id)
                      (jobs_join d)) as Hx by (rewrite Hf; left).
  apply list_elem_of_filter in Hx as [Hid Hin]. split; [|done].
  by apply jobs_join_job.
Qed.

(** A pass in which the button "Request to Delete" of a listed job is
    pressed: the job becomes the pending one. *)
Lemma request_delete_pass (company_options_map : gmap string (option Z))
    (actual_company_names : list string) (w : world) (i : nat) (a : job_listing) :
  faults (conn w) = [] →
  all_jobs_query (working (conn w)) !! i = Some a →
  jl_job_id a ≠ 0 →
  tab_edit_delete_job company_options_map actual_company_names (Some i)
                      (RequestDelete (jl_job_id a)) w
  = (Raised RerunException,
     World (conn w)
           (SessionState (Some (jl_job_id a)) (Some (jl_job_id a))
              (selected_recruiter_id_for_edit (session w))
              (confirm_delete_recruiter_id (session w))
              (selected_company_id_for_edit (session w))
              (confirm_delete_company_id (session w))
              (selected_task_id_for_edit (session w))
              (confirm_delete_task_id (session w)))
           (shown w)).
Proof.
  intros Hfs Hi Hnz. destruct w as [[d wk fs] ss out]. simpl in *. subst fs.
  destruct (job_details_of_listed wk a) as (jd & cn & Hq & Hid).
  { by eapply list_elem_of_lookup_2. }
  assert (truthy_int (jl_job_id a) = true) as Ht.
  { unfold truthy_int. by rewrite bool_decide_eq_false_2. }
  run_page.
  destruct (all_jobs_query wk) as [|a0 l] eqn:Hl; [done|].
  rewrite Hi, Ht, Hq. unfold request_clicked. rewrite Hid.
  rewrite bool_decide_eq_true_2 by done. reflexivity.
Qed.

(** A pass in which "Cancel Deletion" of the pending, listed job is
    pressed: nothing is pending any more and nothing was written. *)
Lemma cancel_delete_pass (company_options_map : gmap string (option Z))
    (actual_company_names : list string) (w : world) (i : nat) (a : job_listing) :
  faults (conn w) = [] →
  all_jobs_query (working (conn w)) !! i = Some a →
  jl_job_id a ≠ 0 →
  confirm_delete_job_id (session w) = Some (jl_job_id a) →
  ∃ out,
    tab_edit_delete_job company_options_map actual_company_names (Some i)
                        (CancelDelete (jl_job_id a)) w
    = (Raised RerunException,
       World (conn w)
             (SessionState (Some (jl_job_id a)) None
                (selected_recruiter_id_for_edit (session w))
                (confirm_delete_recruiter_id (session w))
                (selected_company_id_for_edit (session w))
                (confirm_delete_company_id (session w))
                (selected_task_id_for_edit (session w))
                (confirm_delete_task_id (session w)))
             out).
Proof.
  intros Hfs Hi Hnz Hpending. destruct w as [[d wk fs] ss out]. simpl in *. subst fs.
  destruct (job_details_of_listed wk a) as (jd & cn & Hq & Hid).
  { by eapply list_elem_of_lookup_2. }
  assert (truthy_int (jl_job_id a) = true) as Ht.
  { unfold truthy_int. by rewrite bool_decide_eq_false_2. }
  eexists. run_page.
  destruct (all_jobs_query wk) as [|a0 l] eqn:Hl; [done|].
  rewrite Hi, Ht, Hq. unfold request_clicked, confirm_clicked, cancel_clicked.
  rewrite Hid. destruct ss; simpl in *. rewrite Hpending.
  rewrite !bool_decide_eq_true_2 by done. reflexivity.
Qed.

(** C5. The session holds at most one pending job deletion,
    [confirm_delete_job_id].  Requesting the deletion of job A and then,
    before confirming, of job B leaves B pending and A no longer
    pending, with nothing deleted; cancelling on B leaves nothing
    pending, and both jobs are still stored and listed.  This is the
    tab "Edit/Delete Job"; the recruiter, company and task tabs keep a
    field of their own each, and are not part of this statement. *)
Theorem delete_request_replaces_pending (company_options_map : gmap string (option Z))
    (actual_company_names : list string) (w : world) (ia ib : nat) (a b : job_listing) :
  faults (conn w) = [] →
  all_jobs_query (working (conn w)) !! ia = Some a →
  all_jobs_query (working (conn w)) !! ib = Some b →
  jl_job_id a ≠ 0 → jl_job_id b ≠ 0 → jl_job_id a ≠ jl_job_id b →
  let pass := tab_edit_delete_job company_options_map actual_company_names in
  let w1 := (pass (Some ia) (RequestDelete (jl_job_id a)) w).2 in
  let w2 := (pass (Some ib) (RequestDelete (jl_job_id b)) w1).2 in
  let w3 := (pass (Some ib) (CancelDelete (jl_job_id b)) w2).2 in
  confirm_delete_job_id (session w1) = Some (jl_job_id a)
  ∧ confirm_delete_job_id (session w2) = Some (jl_job_id b)
  ∧ confirm_delete_job_id (session w2) ≠ Some (jl_job_id a)
  ∧ conn w2 = conn w
  ∧ confirm_delete_job_id (session w3) = None
  ∧ conn w3 = conn w
  ∧ all_jobs_query (working (conn w3)) !! ia = Some a
  ∧ all_jobs_query (working (conn w3)) !! ib = Some b.
Proof.
  intros Hfs Ha Hb Hnza Hnzb Hab pass w1 w2 w3.
  assert (conn w1 = conn w ∧ confirm_delete_job_id (session w1) = Some (jl_job_id a))
    as [Hc1 Hp1].
  { subst w1 pass. by rewrite (request_delete_pass _ _ w ia a). }
  assert (conn w2 = conn w ∧ confirm_delete_job_id (session w2) = Some (jl_job_id b))
    as [Hc2 Hp2].
  { subst w2 pass. rewrite (request_delete_pass _ _ w1 ib b); rewrite ?Hc1; done. }
  assert (conn w3 = conn w ∧ confirm_delete_job_id (session w3) = None) as [Hc3 Hp3].
  { subst w3 pass.
    destruct (cancel_delete_pass company_options_map actual_company_names w2 ib b)
      as [out ->]; rewrite ?Hc2; done. }
  rewrite Hc3. split_and!; try done. rewrite Hp2. congruence.
Qed.

Lemma delete_request_replaces_pending_witness :
  let pass := tab_edit_delete_job ∅ [] in
  let w1 := (pass (Some 0%nat) (RequestDelete 5) (healthy five_jobs)).2 in
  let w2 := (pass (Some 1%nat) (RequestDelete 4) w1).2 in
  let w3 := (pass (Some 1%nat) (CancelDelete 4) w2).2 in
  confirm_delete_job_id (session w1) = Some 5
  ∧ confirm_delete_job_id (session w2) = Some 4
  ∧ confirm_delete_job_id (session w2) ≠ Some 5
  ∧ conn w2 = conn (healthy five_jobs)
  ∧ confirm_delete_job_id (session w3) = None
  ∧ conn w3 = conn (healthy five_jobs)
  ∧ jl_job_id <$> all_jobs_query (working (conn w3)) !! 0%nat = Some 5
  ∧ jl_job_id <$> all_jobs_query (working (conn w3)) !! 1%nat = Some 4.
Proof.
  pose proof (delete_request_replaces_pending ∅ [] (healthy five_jobs) 0 1
    (JobListing 5 "Engineer" (Some "Acme") 1 "" "Not Applied" "" None "" 5)
    (JobListing 4 "Engineer" (Some "Acme") 1 "" "Offer" "" None "" 4)) as H.
  cbn zeta in H.
  destruct H as (H1 & H2 & H3 & H4 & H5 & H6 & H7 & H8);
    [reflexivity | reflexivity | reflexivity | done | done | done |].
  cbn [jl_job_id] in *. rewrite H7, H8. by split_and!.
Defined.

(** ** Confirming the deletion of a record that is gone *)

Lemma filter_all {A} (P : A → Prop) `{!∀ x, Decision (P x)} (l : list A) :
  Forall P l → filter P l = l.
Proof.
  induction 1 as [|x l Hx Hl IH]; [done|]. by rewrite filter_cons_True, IH.
Qed.

Lemma delete_missing_job (d : database) (x : Z) :
  (∀ j, j ∈ jobs d → jb_job_id j ≠ x) → run_statement (DeleteJob x) d = d.
Proof.
  intros Hx. simpl. rewrite filter_all by (by apply Forall_forall). by destruct d.
Qed.

(** C7, as the code has it. When the record a confirm click targets is
    no longer stored, nothing crashes and nothing is written.  On the
    page the record is not listed any more, so its button is not drawn
    and the click is lost: the pass ends normally and the pending
    identifier stays what it was.  And [delete_job_record] on an
    identifier that is not stored does not fail: the DELETE matches no
    row, the call returns True, and the confirm branch shows "Job
    deleted!", clears the selection and the pending identifier and
    reruns. *)
Theorem confirm_on_missing_job (company_options_map : gmap string (option Z))
    (actual_company_names : list string) (sel : option nat) (x : Z) (w : world) :
  Forall (λ j, jb_job_id j ≠ x) (jobs (working (conn w))) →
  x ≠ 0 →
  (let after := tab_edit_delete_job company_options_map actual_company_names sel
                                    (ConfirmDelete x) w in
   after.1 = Returned ()
   ∧ durable (conn after.2) = durable (conn w)
   ∧ working (conn after.2) = working (conn w)
   ∧ confirm_delete_job_id (session after.2) = confirm_delete_job_id (session w))
  ∧ (faults (conn w) = [] →
     let after := confirm_delete_job x w in
     after.1 = Raised RerunException
     ∧ durable (conn after.2) = working (conn w)
     ∧ working (conn after.2) = working (conn w)
     ∧ shown after.2 = shown w ++ [StSuccess "Job deleted!"]
     ∧ selected_job_id_for_edit (session after.2) = None
     ∧ confirm_delete_job_id (session after.2) = None).
Proof.
  intros Hgone Hnz. destruct w as [[d wk fs] ss out]. cbn [conn working] in Hgone.
  rewrite Forall_forall in Hgone.
  split.
  - cbn zeta.
    assert (∀ i : Z,
      match job_details_query i wk with
      | Some (jd, _) => confirm_clicked (ConfirmDelete x) (jb_job_id jd) = false
                        ∧ cancel_clicked (ConfirmDelete x) (jb_job_id jd) = false
                        ∧ request_clicked (ConfirmDelete x) (jb_job_id jd) = false
      | None => True
      end) as Hload.
    { intros i. destruct (job_details_query i wk) as [[jd cn]|] eqn:Hq; [|done].
      apply job_details_stored in Hq as [Hin _]. simpl.
      rewrite bool_decide_eq_false_2; [done|]. intros ->. by apply (Hgone jd). }
    run_page.
    destruct fs as [|[] fs].
    + destruct (all_jobs_query wk) as [|a0 l]; [done|].
      destruct sel as [i|]; [|done]. destruct ((a0 :: l) !! i) as [a|]; [|done].
      destruct (truthy_int (jl_job_id a)); [|done].
      specialize (Hload (jl_job_id a)).
      destruct (job_details_query (jl_job_id a) wk) as [[jd cn]|]; [|done].
      destruct Hload as (-> & -> & ->).
      destruct ss;
        match goal with |- context [bool_decide ?P] => by destruct (bool_decide P) end.
    + done.
    + destruct (all_jobs_query wk) as [|a0 l]; [done|].
      destruct sel as [i|]; [|done]. destruct ((a0 :: l) !! i) as [a|]; [|done].
      destruct (truthy_int (jl_job_id a)); [|done].
      specialize (Hload (jl_job_id a)).
      destruct fs as [|[] fs]; try done.
      all: destruct (job_details_query (jl_job_id a) wk) as [[jd cn]|]; [|done].
      all: destruct Hload as (-> & -> & ->).
      all: destruct ss;
        match goal with |- context [bool_decide ?P] => by destruct (bool_decide P) end.
  - cbn [conn faults]. intros ->. cbn zeta.
    assert (truthy_int x = true) as Ht.
    { unfold truthy_int. by rewrite bool_decide_eq_false_2. }
    unfold confirm_delete_job, delete_job_record. rewrite Ht. run_page.
    by rewrite delete_missing_job.
Qed.

Lemma confirm_on_missing_job_witness :
  (let after := tab_edit_delete_job ∅ [] None (ConfirmDelete 7) pending_on_missing_job in
   after.1 = Returned ()
   ∧ durable (conn after.2) = five_jobs
   ∧ working (conn after.2) = five_jobs
   ∧ confirm_delete_job_id (session after.2) = Some 7)
  ∧ (let after := confirm_delete_job 7 pending_on_missing_job in
     after.1 = Raised RerunException
     ∧ durable (conn after.2) = five_jobs
     ∧ working (conn after.2) = five_jobs
     ∧ shown after.2 = [StSuccess "Job deleted!"]
     ∧ selected_job_id_for_edit (session after.2) = None
     ∧ confirm_delete_job_id (session after.2) = None).
Proof.
  destruct (confirm_on_missing_job ∅ [] None 7 pending_on_missing_job) as [Hpage Hcall].
  - simpl. repeat (constructor; [done|]). constructor.
  - done.
  - split; [exact Hpage | exact (Hcall eq_refl)].
Defined.

(** C7, as stated, fails. Job 7 is pending and no longer stored. On the
    page the confirm click reports nothing and leaves job 7 pending; and
    the confirm branch itself, run on job 7, reports a successful
    deletion, not a record that is gone. *)
Lemma confirm_on_missing_job_not_reported :
  let after := tab_edit_delete_job ∅ [] None (ConfirmDelete 7) pending_on_missing_job in
  let direct := confirm_delete_job 7 pending_on_missing_job in
  Forall (λ j, jb_job_id j ≠ 7) (jobs (durable (conn pending_on_missing_job)))
  ∧ after.1 = Returned ()
  ∧ shown after.2 = []
  ∧ confirm_delete_job_id (session after.2) = Some 7
  ∧ confirm_delete_job_id (session after.2) ≠ None
  ∧ shown direct.2 = [StSuccess "Job deleted!"].
Proof.
  cbn zeta. split_and!; try reflexivity; try done.
  simpl. repeat (constructor; [done|]). constructor.
Qed.

(** * Further properties of the store and the pages *)

(** ** Joins *)

Lemma left_join_app {A B} (on : A → B → bool) (l1 l2 : list A) (r : list B) :
  left_join on (l1 ++ l2) r = left_join on l1 r ++ left_join on l2 r.
Proof. unfold left_join. apply bind_app. Qed.

Lemma left_join_cons {A B} (on : A → B → bool) (a : A) (l : list A) (r : list B) :
  left_join on (a :: l) r = left_join on [a] r ++ left_join on l r.
Proof. apply (left_join_app on [a] l r). Qed.

Lemma left_join_one {A B} (on : A → B → bool) (a : A) (r : list B) (x : A * option B) :
  x ∈ left_join on [a] r →
  x.1 = a ∧ match x.2 with
            | Some b => b ∈ r ∧ on a b = true
            | None => Forall (λ b, on a b = false) r
            end.
Proof.
  unfold left_join. simpl. rewrite app_nil_r.
  destruct (filter (λ b, on a b) r) as [|b0 ms] eqn:Hf.
  - intros ->%list_elem_of_singleton. split; [done|]. simpl.
    apply Forall_forall. intros b Hb. destruct (on a b) eqn:Hon; [|done].
    assert (b ∈ filter (λ b, on a b) r) as Hx.
    { apply list_elem_of_filter. split; [by rewrite Hon|done]. }
    rewrite Hf in Hx. by apply elem_of_nil in Hx.
  - intros Hx.
    change (x ∈ (λ b, (a, Some b)) <$> (b0 :: ms)) in Hx.
    apply list_elem_of_fmap in Hx as (b & -> & Hb). split; [done|]. simpl.
    rewrite <- Hf in Hb. apply list_elem_of_filter in Hb as [Hon Hb].
    split; [done|]. by apply Is_true_true.
Qed.

Lemma left_join_elem {A B} (on : A → B → bool) (l : list A) (r : list B)
    (x : A * option B) :
  x ∈ left_join on l r →
  x.1 ∈ l ∧ match x.2 with
            | Some b => b ∈ r ∧ on x.1 b = true
            | None => Forall (λ b, on x.1 b = false) r
            end.
Proof.
  induction l as [|a l IH].
  - intros Hx. by apply elem_of_nil in Hx.
  - rewrite left_join_cons, elem_of_app. intros [Hx|Hx].
    + apply left_join_one in Hx as [Ha Hm]. rewrite Ha. split; [left|done].
    + destruct (IH Hx) as [Hl Hm]. split; [by right|done].
Qed.

Lemma left_join_one_nonempty {A B} (on : A → B → bool) (a : A) (r : list B) :
  ∃ b rest, left_join on [a] r = (a, b) :: rest.
Proof.
  unfold left_join. simpl. rewrite app_nil_r.
  destruct (filter (λ b, on a b) r) as [|b0 ms]; simpl; eauto.
Qed.

Lemma left_join_covers {A B} (on : A → B → bool) (l : list A) (r : list B) (a : A) :
  a ∈ l → ∃ b, (a, b) ∈ left_join on l r.
Proof.
  induction l as [|a0 l IH]; intros Ha; [by apply elem_of_nil in Ha|].
  rewrite left_join_cons. apply elem_of_cons in Ha as [->|Ha].
  - destruct (left_join_one_nonempty on a0 r) as (b & rest & ->).
    exists b. apply elem_of_app. left. left.
  - destruct (IH Ha) as [b Hb]. exists b. apply elem_of_app. by right.
Qed.

Lemma left_join_filter {A B} (on : A → B → bool) (P : A → Prop)
    `{!∀ a, Decision (P a)} (l : list A) (r : list B) :
  left_join on (filter P l) r = filter (λ x, P x.1) (left_join on l r).
Proof.
  induction l as [|a l IH]; [done|].
  rewrite (left_join_cons on a l), filter_app, <- IH, filter_cons.
  assert (∀ x, x ∈ left_join on [a] r → x.1 = a) as Hone.
  { intros x Hx. by apply left_join_one in Hx as [? _]. }
  destruct (decide (P a)) as [Ha|Ha].
  - rewrite left_join_cons. f_equal. symmetry. apply filter_all.
    apply Forall_forall. intros x Hx. by rewrite (Hone x Hx).
  - replace (filter (λ x : A * option B, P x.1) (left_join on [a] r)) with
      (@nil (A * option B)); [done|].
    symmetry. destruct (filter _ (left_join on [a] r)) as [|x xs] eqn:Hf; [done|].
    assert (x ∈ filter (λ x : A * option B, P x.1) (left_join on [a] r)) as Hx
      by (rewrite Hf; left).
    apply list_elem_of_filter in Hx as [HP Hx]. by rewrite (Hone x Hx) in HP.
Qed.

(** What a write that goes through leaves behind. *)
Lemma write_block_healthy (s : statement) (text : string) (w : world) :
  faults (conn w) = [] →
  try_except (execute s;; commit;; mret true)
             (rollback;; st_error text;; mret false) w
  = (Returned true,
     World (Connection (run_statement s (working (conn w)))
                       (run_statement s (working (conn w))) [])
           (session w) (shown w)).
Proof. intros Hfs. rewrite write_block_run. simpl. by rewrite Hfs. Qed.

Lemma read_healthy {A} (q : database → A) (text : string) (fallback : A) (w : world) :
  faults (conn w) = [] →
  try_except (execute_query q) (st_error text;; mret fallback) w
  = (Returned (q (working (conn w))), w).
Proof. intros Hfs. rewrite read_run. simpl. by rewrite Hfs. Qed.

(** ** Jobs: what is written can be read back *)

Lemma job_details_of_stored (d : database) (j : job) :
  j ∈ jobs d →
  ∃ jd cn, job_details_query (jb_job_id j) d = Some (jd, cn).
Proof.
  intros Hj. unfold job_details_query.
  destruct (left_join_covers
              (λ j c, bool_decide (jb_company_id j = co_company_id c))
              (jobs d) (companies d) j Hj) as [b Hb].
  fold (jobs_join d) in Hb.
  destruct (filter (λ r0 : job * option company, jb_job_id r0.1 = jb_job_id j)
                   (jobs_join d)) as [|r' rs] eqn:Hf.
  - assert ((j, b) ∈ filter (λ r0 : job * option company, jb_job_id r0.1 = jb_job_id j)
                            (jobs_join d)) as Hx by (by apply list_elem_of_filter).
    rewrite Hf in Hx. by apply elem_of_nil in Hx.
  - simpl. by eexists _, _.
Qed.

Lemma job_details_none (d : database) (x : Z) :
  Forall (λ j, jb_job_id j ≠ x) (jobs d) → job_details_query x d = None.
Proof.
  intros Hall. destruct (job_details_query x d) as [[jd cn]|] eqn:Hq; [|done].
  apply job_details_stored in Hq as [Hin Hid].
  rewrite Forall_forall in Hall. by destruct (Hall jd Hin).
Qed.

(** X1. A job added by [add_new_job] can be read back at once: on a
    backend that answers, with the job sequence ahead of the stored
    jobs, [get_job_details] on the new identifier returns a row whose
    columns are the arguments of the insert. *)
Theorem job_insert_then_get (title : string) (cid : Z) (loc stat url notes_val : string)
    (date_f : option Z) (w : world) :
  title ≠ "" →
  faults (conn w) = [] →
  job_ids_fresh (working (conn w)) →
  let d := working (conn w) in
  let added := add_new_job title (Some cid) loc stat url notes_val date_f w in
  added.1 = Returned true
  ∧ ∃ cn, (get_job_details (next_job_id d) added.2).1
          = Returned (Some (Job (next_job_id d) title cid loc stat url notes_val date_f
                                (now d), cn)).
Proof.
  intros Htitle Hfs Hfresh d added. subst added.
  unfold add_new_job. rewrite (truthy_str_nonempty _ Htitle). cbn [negb].
  rewrite write_block_healthy by done. split; [done|]. cbn [fst snd].
  unfold get_job_details. rewrite read_healthy by done. cbn [fst conn working].
  fold d.
  unfold job_details_query, jobs_join. cbn [run_statement set_jobs jobs companies].
  set (new := Job (next_job_id d) title cid loc stat url notes_val date_f (now d)).
  rewrite left_join_app, filter_app.
  assert (filter (λ r0 : job * option company, jb_job_id r0.1 = next_job_id d)
            (left_join (λ j c, bool_decide (jb_company_id j = co_company_id c))
                       (jobs d) (companies d)) = []) as ->.
  { destruct (filter _ _) as [|x xs] eqn:Hf; [done|]. exfalso.
    assert (x ∈ filter (λ r0 : job * option company, jb_job_id r0.1 = next_job_id d)
              (left_join (λ j c, bool_decide (jb_company_id j = co_company_id c))
                         (jobs d) (companies d))) as Hx by (rewrite Hf; left).
    apply list_elem_of_filter in Hx as [Hid Hx].
    apply left_join_elem in Hx as [Hx _].
    unfold job_ids_fresh in Hfresh. rewrite Forall_forall in Hfresh.
    specialize (Hfresh _ Hx). fold d in Hfresh. lia. }
  destruct (left_join_one_nonempty
              (λ j c, bool_decide (jb_company_id j = co_company_id c))
              new (companies d)) as (b & rest & ->).
  rewrite app_nil_l, filter_cons_True by done. simpl. by eexists.
Qed.

Lemma job_insert_then_get_witness :
  let added := add_new_job "Analyst" (Some 1) "Paris" "Applied" "" "" None
                           (healthy five_jobs) in
  added.1 = Returned true
  ∧ ∃ cn, (get_job_details 6 added.2).1
          = Returned (Some (Job 6 "Analyst" 1 "Paris" "Applied" "" "" None 6, cn)).
Proof.
  apply (job_insert_then_get "Analyst" 1 "Paris" "Applied" "" "" None (healthy five_jobs)).
  - done.
  - reflexivity.
  - unfold job_ids_fresh. simpl. repeat constructor.
Defined.

(** X2. [update_job_details] replaces the whole row: on a backend that
    answers, when a job with the identifier is stored, [get_job_details]
    afterwards returns a row that carries every column as given in the
    call, under the same identifier and with the creation time of a
    stored row of that identifier; the jobs with other identifiers are
    still stored as they were. *)
Theorem job_update_then_get (j_id : Z) (title : string) (cid : Z)
    (loc stat url notes_val : string) (date_f : option Z) (w : world) (old : job) :
  j_id ≠ 0 → title ≠ "" → stat ≠ "" →
  faults (conn w) = [] →
  old ∈ jobs (working (conn w)) → jb_job_id old = j_id →
  let updated := update_job_details j_id title (Some cid) loc stat url notes_val date_f w in
  updated.1 = Returned true
  ∧ (∃ prior cn, prior ∈ jobs (working (conn w)) ∧ jb_job_id prior = j_id
       ∧ (get_job_details j_id updated.2).1
         = Returned (Some (Job j_id title cid loc stat url notes_val date_f
                               (jb_created_at prior), cn)))
  ∧ ∀ j, j ∈ jobs (working (conn w)) → jb_job_id j ≠ j_id →
         j ∈ jobs (durable (conn updated.2)).
Proof.
  intros Hid Htitle Hstat Hfs Hold Holdid updated. subst updated.
  unfold update_job_details.
  assert (truthy_int j_id = true) as ->.
  { unfold truthy_int. by rewrite bool_decide_eq_false_2. }
  rewrite (truthy_str_nonempty _ Htitle), (truthy_str_nonempty _ Hstat). cbn [negb andb].
  rewrite write_block_healthy by done. cbn [fst snd conn durable].
  set (d := working (conn w)) in *.
  set (upd := λ r, if bool_decide (jb_job_id r = j_id)
                   then Job j_id title cid loc stat url notes_val date_f (jb_created_at r)
                   else r).
  assert (jobs (run_statement (UpdateJob title cid loc stat url notes_val date_f j_id) d)
          = upd <$> jobs d) as Hjobs by done.
  split_and!; [done| |].
  - unfold get_job_details. rewrite read_healthy by done. cbn [fst conn working].
    assert (upd old ∈ jobs (run_statement
              (UpdateJob title cid loc stat url notes_val date_f j_id) d)) as Hnew.
    { rewrite Hjobs. apply list_elem_of_fmap. by exists old. }
    destruct (job_details_of_stored _ _ Hnew) as (jd & cn & Hq).
    assert (jb_job_id (upd old) = j_id) as Hnid.
    { unfold upd. by rewrite bool_decide_eq_true_2. }
    rewrite Hnid in Hq. rewrite Hq.
    apply job_details_stored in Hq as [Hin Hjd].
    rewrite Hjobs in Hin. apply list_elem_of_fmap in Hin as (prior & -> & Hprior).
    unfold upd in Hjd |- *.
    destruct (bool_decide (jb_job_id prior = j_id)) eqn:Hb.
    + apply bool_decide_eq_true in Hb. by exists prior, cn.
    + apply bool_decide_eq_false in Hb. done.
  - intros j Hj Hne. rewrite Hjobs. apply list_elem_of_fmap. exists j. split; [|done].
    unfold upd. by rewrite bool_decide_eq_false_2.
Qed.

Lemma job_update_then_get_witness :
  let updated := update_job_details 3 "Lead" (Some 1) "Rome" "Offer" "" "" None
                                    (healthy five_jobs) in
  updated.1 = Returned true
  ∧ (∃ prior cn, prior ∈ jobs five_jobs ∧ jb_job_id prior = 3
       ∧ (get_job_details 3 updated.2).1
         = Returned (Some (Job 3 "Lead" 1 "Rome" "Offer" "" "" None
                               (jb_created_at prior), cn)))
  ∧ ∀ j, j ∈ jobs five_jobs → jb_job_id j ≠ 3 → j ∈ jobs (durable (conn updated.2)).
Proof.
  apply (job_update_then_get 3 "Lead" 1 "Rome" "Offer" "" "" None (healthy five_jobs)
           (Job 3 "Engineer" 1 "" "Interviewing" "" "" None 3)); try done.
  simpl. do 2 right. left.
Defined.

(** X3. A job deleted by [delete_job_record] is gone at once: on a
    backend that answers, [get_job_details] on its identifier returns
    nothing, and [get_all_jobs] lists exactly the rows it listed before
    that carry another identifier. *)
Theorem job_delete_then_get (x : Z) (w : world) :
  x ≠ 0 →
  faults (conn w) = [] →
  let deleted := delete_job_record x w in
  deleted.1 = Returned true
  ∧ (get_job_details x deleted.2).1 = Returned None
  ∧ ∃ before after,
      (get_all_jobs w).1 = Returned before
      ∧ (get_all_jobs deleted.2).1 = Returned after
      ∧ after ≡ₚ filter (λ r, jl_job_id r ≠ x) before.
Proof.
  intros Hx Hfs deleted. subst deleted. unfold delete_job_record.
  assert (truthy_int x = true) as ->.
  { unfold truthy_int. by rewrite bool_decide_eq_false_2. }
  cbn [negb]. rewrite write_block_healthy by done. cbn [fst snd].
  set (d := working (conn w)).
  assert (jobs (run_statement (DeleteJob x) d) = filter (λ r, jb_job_id r ≠ x) (jobs d))
    as Hjobs by done.
  split_and!; [done| |].
  - unfold get_job_details. rewrite read_healthy by done. cbn [fst conn working].
    f_equal. apply job_details_none. rewrite Hjobs.
    apply Forall_forall. intros j Hj. by apply list_elem_of_filter in Hj as [? _].
  - unfold get_all_jobs. rewrite !read_healthy by done. cbn [fst conn working].
    eexists _, _. split_and!; [reflexivity..|]. fold d.
    unfold all_jobs_query. rewrite !order_by_permutation.
    unfold jobs_join. rewrite Hjobs.
    assert (companies (run_statement (DeleteJob x) d) = companies d) as -> by done.
    rewrite left_join_filter.
    generalize (left_join (λ j c, bool_decide (jb_company_id j = co_company_id c))
                          (jobs d) (companies d)) as rows.
    intros rows. induction rows as [|r rows IH]; [done|].
    rewrite fmap_cons, !filter_cons. cbn [job_listing_of jl_job_id].
    destruct (decide (jb_job_id r.1 ≠ x)); [|done].
    by rewrite fmap_cons, IH.
Qed.

Lemma job_delete_then_get_witness :
  let deleted := delete_job_record 3 (healthy five_jobs) in
  deleted.1 = Returned true
  ∧ (get_job_details 3 deleted.2).1 = Returned None
  ∧ ∃ before after,
      (get_all_jobs (healthy five_jobs)).1 = Returned before
      ∧ (get_all_jobs deleted.2).1 = Returned after
      ∧ after ≡ₚ filter (λ r, jl_job_id r ≠ 3) before.
Proof.
  apply (job_delete_then_get 3 (healthy five_jobs)); [done | reflexivity].
Defined.

(** Every stored task has a row in the join of the task listing. *)
Lemma tasks_join_covers (d : database) (t : task) :
  t ∈ tasks d → ∃ r, r ∈ tasks_join d ∧ task_of r = t.
Proof.
  intros Ht. unfold tasks_join.
  destruct (left_join_covers (λ t j, bool_decide (tk_job_id t = Some (jb_job_id j)))
              (tasks d) (jobs d) t Ht) as [oj H1].
  destruct (left_join_covers
              (λ (r : task * option job) rc,
                 bool_decide (tk_recruiter_id r.1 = Some (rc_recruiter_id rc)))
              _ (recruiters d) (t, oj) H1) as [orc H2].
  destruct (left_join_covers
              (λ (r : task * option job * option recruiter) cy,
                 bool_decide (tk_company_id r.1.1 = Some (co_company_id cy)))
              _ (companies d) (t, oj, orc) H2) as [oc H3].
  by exists (t, oj, orc, oc).
Qed.

(** X4. Deleting a job does not touch the tasks.  When the backend lets
    the DELETE of [delete_job_record] through, the call returns True,
    the tasks are stored as before, and [get_all_tasks] still lists
    every stored task, under its identifier and with its description,
    status and three links as stored; the rows that link to the deleted
    identifier keep the link and show no job title. *)
Theorem deleted_job_leaves_tasks_unlinked (x : Z) (w : world) :
  x ≠ 0 →
  faults (conn w) = [] →
  let deleted := delete_job_record x w in
  deleted.1 = Returned true
  ∧ tasks (durable (conn deleted.2)) = tasks (working (conn w))
  ∧ ∃ listing, (get_all_tasks deleted.2).1 = Returned listing
      ∧ Forall (λ r, tl_job_id r = Some x → tl_job_title r = None) listing
      ∧ ∀ t, t ∈ tasks (working (conn w)) →
          ∃ r, r ∈ listing
               ∧ tl_task_id r = tk_task_id t
               ∧ tl_task_description r = tk_task_description t
               ∧ tl_status r = tk_status t
               ∧ tl_job_id r = tk_job_id t
               ∧ tl_recruiter_id r = tk_recruiter_id t
               ∧ tl_company_id r = tk_company_id t.
Proof.
  intros Hx Hfs deleted. subst deleted. unfold delete_job_record.
  assert (truthy_int x = true) as ->.
  { unfold truthy_int. by rewrite bool_decide_eq_false_2. }
  cbn [negb]. rewrite write_block_healthy by done. cbn [fst snd conn durable].
  set (d := working (conn w)). split; [done|]. split; [done|].
  unfold get_all_tasks. rewrite read_healthy by done. cbn [fst conn working].
  eexists. split; [reflexivity|]. split.
  - unfold all_tasks_query. apply Forall_fmap, Forall_forall. intros r Hr.
    unfold all_tasks_rows in Hr. rewrite order_by_permutation in Hr.
    unfold tasks_join in Hr.
    apply left_join_elem in Hr as [Hr _]. apply left_join_elem in Hr as [Hr _].
    apply left_join_elem in Hr as [_ Hm].
    simpl. intros Hlink.
    destruct r as [[[t oj] orc] oc]. simpl in *. unfold task_of in Hlink. simpl in Hlink.
    destruct oj as [j|]; [|done]. destruct Hm as [Hj Hon].
    apply list_elem_of_filter in Hj as [Hne _].
    apply bool_decide_eq_true in Hon. rewrite Hlink in Hon. by injection Hon as ->.
  - intros t Ht.
    destruct (tasks_join_covers (run_statement (DeleteJob x) d) t Ht) as (r & Hr & <-).
    exists (task_listing_of r). split; [|done].
    unfold all_tasks_query. apply list_elem_of_fmap. exists r. split; [done|].
    unfold all_tasks_rows. by rewrite order_by_permutation.
Qed.

Lemma deleted_job_leaves_tasks_unlinked_witness :
  let deleted := delete_job_record 3 (healthy jobs_and_tasks) in
  deleted.1 = Returned true
  ∧ tasks (durable (conn deleted.2)) = tasks jobs_and_tasks
  ∧ ∃ listing, (get_all_tasks deleted.2).1 = Returned listing
      ∧ Forall (λ r, tl_job_id r = Some 3 → tl_job_title r = None) listing
      ∧ ∀ t, t ∈ tasks jobs_and_tasks →
          ∃ r, r ∈ listing
               ∧ tl_task_id r = tk_task_id t
               ∧ tl_task_description r = tk_task_description t
               ∧ tl_status r = tk_status t
               ∧ tl_job_id r = tk_job_id t
               ∧ tl_recruiter_id r = tk_recruiter_id t
               ∧ tl_company_id r = tk_company_id t.
Proof.
  apply (deleted_job_leaves_tasks_unlinked 3 (healthy jobs_and_tasks));
    [done | reflexivity].
Defined.

(** ** Adding a job: what is turned away, and what is not *)

(** X5. A job form that resolves to no company writes nothing: with no
    typed company name, whether nothing is selected or the selected name
    has no identifier in the cached mapping, the handler makes no call
    to the backend, leaves connection and session as they are and ends
    without a rerun.  When nothing is selected it says so; when the
    selected name is unknown to the mapping it adds no message about the
    company at all. *)
Theorem add_job_without_company_writes_nothing
    (company_options_map : gmap string (option Z)) (f : add_job_form) (w : world) :
  new_comp_name_add_job f = "" →
  sel_comp_name_add_job f = "" ∨ sel_comp_name_add_job f = "--- Select Company ---"
  ∨ truthy_id (dict_get company_options_map (sel_comp_name_add_job f)) = false →
  let after := tab_add_job_submit company_options_map f w in
  after.1 = Returned ()
  ∧ conn after.2 = conn w
  ∧ session after.2 = session w
  ∧ (sel_comp_name_add_job f = "" ∨ sel_comp_name_add_job f = "--- Select Company ---" →
     StError "Please select or type a company." ∈ shown after.2)
  ∧ (sel_comp_name_add_job f ≠ "" → sel_comp_name_add_job f ≠ "--- Select Company ---" →
     new_job_title f ≠ "" → shown after.2 = shown w).
Proof.
  intros Hname Hsel. cbn zeta. unfold tab_add_job_submit. rewrite Hname.
  change (truthy_str "") with false. cbv iota.
  destruct w as [c ss out].
  assert (truthy_str (sel_comp_name_add_job f)
          && negb (bool_decide (sel_comp_name_add_job f = "--- Select Company ---"))
          = true
          ↔ sel_comp_name_add_job f ≠ ""
            ∧ sel_comp_name_add_job f ≠ "--- Select Company ---") as Hchosen.
  { unfold truthy_str. rewrite andb_true_iff, !negb_true_iff, !bool_decide_eq_false.
    done. }
  destruct (truthy_str (sel_comp_name_add_job f)
            && negb (bool_decide (sel_comp_name_add_job f = "--- Select Company ---")))
    eqn:HA.
  - destruct (proj1 Hchosen eq_refl) as [He Hp].
    destruct Hsel as [?|[?|Hnone]]; [done..|].
    unfold truthy_id in Hnone.
    destruct (truthy_str (new_job_title f)) eqn:Ht; run_script.
    + destruct (dict_get company_options_map (sel_comp_name_add_job f)) as [z|];
        rewrite ?Hnone; split_and!; try done; by intros [?|?].
    + split_and!; try done; [by intros [?|?]|].
      intros _ _ Hne. apply truthy_str_nonempty in Hne. congruence.
  - assert (¬ (sel_comp_name_add_job f ≠ ""
               ∧ sel_comp_name_add_job f ≠ "--- Select Company ---")) as Hnot.
    { intros H. apply Hchosen in H. done. }
    destruct (truthy_str (new_job_title f)) eqn:Ht; run_script; split_and!; try done.
    all: try (intros _; rewrite ?elem_of_app, ?list_elem_of_singleton; by auto).
    all: intros ? ?; by destruct Hnot.
Qed.

Lemma add_job_without_company_writes_nothing_witness :
  let f := AddJobForm "Engineer" "--- Select Company ---" "" "" "Applied" "" "" None in
  let after := tab_add_job_submit ∅ f (healthy five_jobs) in
  after.1 = Returned ()
  ∧ conn after.2 = conn (healthy five_jobs)
  ∧ session after.2 = initial_session
  ∧ StError "Please select or type a company." ∈ shown after.2.
Proof.
  destruct (add_job_without_company_writes_nothing ∅
              (AddJobForm "Engineer" "--- Select Company ---" "" "" "Applied" "" "" None)
              (healthy five_jobs)) as (H1 & H2 & H3 & H4 & _).
  - reflexivity.
  - right. left. reflexivity.
  - split_and!; [exact H1 | exact H2 | exact H3 |]. apply H4. right. reflexivity.
Defined.

(** X6. A typed company name is inserted before the job title is
    looked at: with a new company name and an empty job title, on a
    backend that answers, the handler commits the new company row,
    reports the missing title, inserts no job and ends without a
    rerun. *)
Theorem add_job_empty_title_keeps_new_company
    (company_options_map : gmap string (option Z)) (f : add_job_form) (w : world) :
  new_comp_name_add_job f ≠ "" →
  new_job_title f = "" →
  faults (conn w) = [] →
  let d := working (conn w) in
  let after := tab_add_job_submit company_options_map f w in
  after.1 = Returned ()
  ∧ companies (durable (conn after.2)) = companies d ++
      [Company (next_company_id d) (new_comp_name_add_job f) "" "" "" "" (now d)]
  ∧ jobs (durable (conn after.2)) = jobs d
  ∧ StError "Title required" ∈ shown after.2.
Proof.
  intros Hname Htitle Hfs. apply truthy_str_nonempty in Hname.
  destruct w as [[dd wk fs] ss out]. simpl in Hfs. subst fs.
  cbn zeta. unfold tab_add_job_submit, add_new_company. rewrite Hname, Htitle.
  change (truthy_str "") with false. run_script.
  destruct (new_company_id_query _ _); run_script; split_and!; try done.
  all: apply elem_of_app; right; left.
Qed.

Lemma add_job_empty_title_keeps_new_company_witness :
  let f := AddJobForm "" "--- Select Company ---" "Globex" "" "Applied" "" "" None in
  let after := tab_add_job_submit ∅ f (healthy five_jobs) in
  after.1 = Returned ()
  ∧ companies (durable (conn after.2)) = companies five_jobs ++
      [Company 2 "Globex" "" "" "" "" 6]
  ∧ jobs (durable (conn after.2)) = jobs five_jobs
  ∧ StError "Title required" ∈ shown after.2.
Proof.
  apply (add_job_empty_title_keeps_new_company ∅
           (AddJobForm "" "--- Select Company ---" "Globex" "" "Applied" "" "" None)
           (healthy five_jobs)); [done | reflexivity | reflexivity].
Defined.

(** ** The reads *)

Lemma only_reads_query {A} (q : database → A) (text : string) (fallback : A) :
  only_reads (try_except (execute_query q) (st_error text;; mret fallback)).
Proof.
  intros w. rewrite read_run. simpl.
  destruct (faults (conn w)) as [|[] fs]; by eexists _, _.
Qed.

Lemma only_reads_bind {A B} (m : script A) (f : A → script B) :
  only_reads m → (∀ a, only_reads (f a)) → only_reads (m ≫= f).
Proof.
  intros Hm Hf w. destruct (Hm w) as (a & w1 & Hrun & Hd & Hw & Hs).
  destruct (Hf a w1) as (b & w2 & Hrun2 & Hd2 & Hw2 & Hs2).
  exists b, w2. unfold mbind, script_bind. rewrite Hrun, Hrun2.
  split_and!; [done|congruence..].
Qed.

Lemma only_reads_ret {A} (a : A) : only_reads (mret a).
Proof. intros w. by eexists _, _. Qed.

Lemma only_reads_status_counts : only_reads get_job_status_counts.
Proof.
  intros [[d wk fs] ss out]. unfold get_job_status_counts.
  destruct fs as [|[] fs]; by eexists _, _.
Qed.

Lemma only_reads_options (query : database → list (Z * string)) (text : string) :
  only_reads (get_options query text).
Proof.
  intros w. rewrite get_options_run. simpl.
  destruct (faults (conn w)) as [|[] fs]; by eexists _, _.
Qed.

(** X7. No read writes, and no read fails: whatever the backend does,
    each of the read functions, the loading of the selectbox options and
    the whole dashboard return a value without raising and leave the
    committed state, the open transaction and the session as they
    were. *)
Theorem reads_only_read :
  only_reads get_total_jobs_count
  ∧ only_reads get_job_status_counts
  ∧ only_reads get_all_jobs
  ∧ (∀ job_id, only_reads (get_job_details job_id))
  ∧ (∀ count, only_reads (get_recent_recruiters count))
  ∧ only_reads get_all_recruiters
  ∧ (∀ count, only_reads (get_recent_companies count))
  ∧ only_reads get_all_companies
  ∧ (∀ count, only_reads (get_upcoming_tasks count))
  ∧ only_reads get_all_tasks
  ∧ (∀ task_id, only_reads (get_task_details task_id))
  ∧ only_reads load_selectbox_options
  ∧ only_reads dashboard.
Proof.
  split_and!; try (intros; apply only_reads_query);
    try apply only_reads_status_counts.
  - unfold load_selectbox_options.
    repeat (apply only_reads_bind; [apply only_reads_options|intros ?]).
    apply only_reads_ret.
  - unfold dashboard.
    apply only_reads_bind; [apply only_reads_query|intros ?].
    apply only_reads_bind; [apply only_reads_status_counts|intros ?].
    repeat (apply only_reads_bind; [apply only_reads_query|intros ?]).
    apply only_reads_ret.
Qed.

(** ** The dashboard's numbers *)

Lemma status_counts_healthy (w : world) :
  faults (conn w) = [] →
  get_job_status_counts w
  = (Returned (foldl store_count
                 (list_to_map ((λ st_val, (st_val, 0)) <$> counted_statuses))
                 (status_count_query counted_statuses (working (conn w)))), w).
Proof. destruct w as [[d wk fs] ss out]. simpl. by intros ->. Qed.

Lemma three_statuses_le (l : list job) (a b c : string) :
  a ≠ b → a ≠ c → b ≠ c →
  (length (filter (λ j, jb_status j = a) l)
   + length (filter (λ j, jb_status j = b) l)
   + length (filter (λ j, jb_status j = c) l) ≤ length l)%nat.
Proof.
  intros Hab Hac Hbc. induction l as [|j l IH]; [done|].
  rewrite !filter_cons.
  destruct (decide (jb_status j = a)) as [Ha|Ha],
           (decide (jb_status j = b)) as [Hb|Hb],
           (decide (jb_status j = c)) as [Hc|Hc]; simpl; try congruence; lia.
Qed.

(** X8. On a backend that answers, the dashboard's four numbers come
    from one state of the jobs: the total is the number of stored jobs,
    each of the three status figures is the number of stored jobs with
    that status, and the three together never exceed the total. *)
Theorem dashboard_numbers (w : world) :
  faults (conn w) = [] →
  let count stat :=
    Z.of_nat (length (filter (λ j, jb_status j = stat) (jobs (working (conn w))))) in
  ∃ v, (dashboard w).1 = Returned v
    ∧ total_jobs_tracked v = Z.of_nat (length (jobs (working (conn w))))
    ∧ jobs_applied v = count "Applied"
    ∧ interviews_scheduled v = count "Interviewing"
    ∧ offers_received v = count "Offer"
    ∧ jobs_applied v + interviews_scheduled v + offers_received v ≤ total_jobs_tracked v.
Proof.
  intros Hfs count. unfold dashboard, mbind, script_bind.
  unfold get_total_jobs_count, get_recent_companies, get_recent_recruiters,
    get_upcoming_tasks.
  rewrite read_healthy by done. rewrite status_counts_healthy by done.
  rewrite !read_healthy by done.
  eexists. split; [reflexivity|]. cbn [total_jobs_tracked jobs_applied
    interviews_scheduled offers_received]. unfold counts_get.
  rewrite !status_counts_lookup. cbn [default]. split_and!; try done.
  pose proof (three_statuses_le (jobs (working (conn w)))
                "Applied" "Interviewing" "Offer") as Hle.
  subst count. cbn beta.
  destruct (decide ("Applied" ∈ counted_statuses)) as [_|Hn];
    [|destruct Hn; unfold counted_statuses; repeat constructor].
  destruct (decide ("Interviewing" ∈ counted_statuses)) as [_|Hn];
    [|destruct Hn; unfold counted_statuses; repeat constructor].
  destruct (decide ("Offer" ∈ counted_statuses)) as [_|Hn];
    [|destruct Hn; unfold counted_statuses; repeat constructor].
  cbn [default]. unfold id. specialize (Hle ltac:(done) ltac:(done) ltac:(done)). lia.
Qed.

Lemma dashboard_numbers_witness :
  ∃ v, (dashboard (healthy five_jobs)).1 = Returned v
    ∧ total_jobs_tracked v = 5
    ∧ jobs_applied v = 2
    ∧ interviews_scheduled v = 1
    ∧ offers_received v = 1
    ∧ jobs_applied v + interviews_scheduled v + offers_received v ≤ total_jobs_tracked v.
Proof.
  destruct (dashboard_numbers (healthy five_jobs) eq_refl) as (v & H1 & H2 & H3 & H4 & H5 & H6).
  exists v. split_and!; [exact H1 | | | | | exact H6].
  - rewrite H2. reflexivity.
  - rewrite H3. reflexivity.
  - rewrite H4. reflexivity.
  - rewrite H5. reflexivity.
Defined.

(** ** The most recent rows *)

Lemma most_recent_rows (count : nat) (rows : list (Z * string * Z)) :
  let recent := limit count (order_by [desc (λ r : Z * string * Z, Some (VInt r.2))] rows) in
  length recent = (count `min` length rows)%nat
  ∧ StronglySorted (λ a b, b.2 ≤ a.2) recent
  ∧ recent ⊆ rows
  ∧ ∀ x y, x ∈ rows → x ∉ recent → y ∈ recent → x.2 ≤ y.2.
Proof.
  cbn zeta. unfold limit.
  set (sorted := order_by [desc (λ r : Z * string * Z, Some (VInt r.2))] rows).
  assert (sorted ≡ₚ rows) as Hp by apply order_by_permutation.
  assert (StronglySorted (precedes [desc (λ r : Z * string * Z, Some (VInt r.2))]) sorted)
    as Hs by apply order_by_sorted.
  split_and!.
  - by rewrite length_take, Hp.
  - eapply StronglySorted_weaken; [|by apply StronglySorted_take].
    intros a b. apply (by_int_desc (λ r : Z * string * Z, r.2)).
  - intros x Hx. rewrite <- Hp. by apply (subseteq_take count).
  - intros x y Hx Hnot Hy. rewrite <- Hp in Hx.
    rewrite <- (take_drop count sorted) in Hx, Hs.
    apply elem_of_app in Hx as [Hx|Hx]; [done|].
    apply (by_int_desc (λ r : Z * string * Z, r.2)).
    by apply (StronglySorted_app_1_elem_of _ _ _ y x Hs).
Qed.

(** X9. [get_recent_companies] and [get_recent_recruiters] return the
    most recently created rows: at most [count] of them, as many as
    [count] and the table allow when the backend answers, the latest
    first, each a row of the table, and no row left out was created
    after a row returned.  When the backend raises they return
    nothing. *)
Theorem recent_rows_are_the_latest (count : nat) (w : world) :
  let d := working (conn w) in
  let latest (rows all : list (Z * string * Z)) :=
    (length rows ≤ count)%nat
    ∧ StronglySorted (λ a b, b.2 ≤ a.2) rows
    ∧ rows ⊆ all
    ∧ match faults (conn w) with
      | true :: _ => rows = []
      | _ => length rows = (count `min` length all)%nat
             ∧ ∀ x y, x ∈ all → x ∉ rows → y ∈ rows → x.2 ≤ y.2
      end in
  (∃ rows, (get_recent_companies count w).1 = Returned rows
     ∧ latest rows ((λ r, (co_company_id r, co_company_name r, co_created_at r))
                      <$> companies d))
  ∧ (∃ rows, (get_recent_recruiters count w).1 = Returned rows
     ∧ latest rows ((λ r, (rc_recruiter_id r, rc_name r, rc_created_at r))
                      <$> recruiters d)).
Proof.
  intros d latest. subst latest d. cbn beta.
  unfold get_recent_companies, get_recent_recruiters. rewrite !read_run. cbn zeta.
  set (d := working (conn w)).
  unfold recent_companies_query, recent_recruiters_query.
  split.
  - destruct (most_recent_rows count
                ((λ r, (co_company_id r, co_company_name r, co_created_at r))
                   <$> companies d)) as (Hlen & Hs & Hsub & Hleft).
    destruct (faults (conn w)) as [|[] fs]; eexists; (split; [reflexivity|]).
    2: { split_and!; [simpl; lia | constructor | by intros ? ?%elem_of_nil | done]. }
    all: split_and!; try done; lia.
  - destruct (most_recent_rows count
                ((λ r, (rc_recruiter_id r, rc_name r, rc_created_at r))
                   <$> recruiters d)) as (Hlen & Hs & Hsub & Hleft).
    destruct (faults (conn w)) as [|[] fs]; eexists; (split; [reflexivity|]).
    2: { split_and!; [simpl; lia | constructor | by intros ? ?%elem_of_nil | done]. }
    all: split_and!; try done; lia.
Qed.

(** ** Selectors over a fixed vocabulary *)

Lemma list_index_lookup (options : list string) (value : string) :
  value ∈ options → options !! list_index options value = Some value.
Proof.
  induction options as [|o rest IH]; intros Hin; [by apply elem_of_nil in Hin|].
  simpl. destruct (decide (o = value)) as [->|Hne]; [done|].
  apply elem_of_cons in Hin as [->|Hin]; [done|]. by apply IH.
Qed.

(** X10. The entry an edit form preselects for a stored status always
    exists: it is the stored value when the vocabulary has it, and the
    first entry of the vocabulary when it does not.  So a job whose
    status is not one of the five shows "Not Applied", and a task whose
    status is not one of its five shows "Open". *)
Theorem edit_form_preselects_stored_or_first (first : string) (rest : list string)
    (value : string) :
  let options := first :: rest in
  options !! edit_stat_idx options value
  = Some (if decide (value ∈ options) then value else first)
  ∧ (∀ stored, ∃ shown_status,
       job_status_options !! edit_stat_idx job_status_options stored = Some shown_status
       ∧ (stored ∉ job_status_options → shown_status = "Not Applied"))
  ∧ (∀ stored, ∃ shown_status,
       task_status_options !! edit_stat_idx task_status_options stored = Some shown_status
       ∧ (stored ∉ task_status_options → shown_status = "Open")).
Proof.
  assert (∀ first rest value,
    (first :: rest) !! edit_stat_idx (first :: rest) value
    = Some (if decide (value ∈ first :: rest) then value else first)) as Hgen.
  { intros f r v. unfold edit_stat_idx.
    destruct (decide (v ∈ f :: r)) as [Hin|Hin]; [|done].
    by apply list_index_lookup. }
  split_and!; [apply Hgen| |].
  - intros stored. unfold job_status_options at 1 2. rewrite Hgen.
    eexists. split; [reflexivity|]. intros Hn.
    destruct (decide _) as [Hin|_]; [|done]. by destruct Hn.
  - intros stored. unfold task_status_options at 1 2. rewrite Hgen.
    eexists. split; [reflexivity|]. intros Hn.
    destruct (decide _) as [Hin|_]; [|done]. by destruct Hn.
Qed.

(** X11. Saving a task's edit form with the priority left as
    preselected keeps a stored priority Low, Medium or High, and turns
    everything else into no priority: no priority stays none, and a
    stored text that is not one of the three, the selector's own "---"
    included, is replaced by none. *)
Theorem priority_resaved (priority : option string) :
  resaved_priority priority
  = match priority with
    | Some p => if decide (p ∈ ["Low"; "Medium"; "High"]) then Some p else None
    | None => None
    end.
Proof.
  destruct priority as [p|]; [|done].
  destruct (decide (p = "---")) as [->|H0]; [done|].
  destruct (decide (p = "Low")) as [->|H1]; [done|].
  destruct (decide (p = "Medium")) as [->|H2]; [done|].
  destruct (decide (p = "High")) as [->|H3]; [done|].
  assert (p ∉ task_priority_options) as Hout.
  { unfold task_priority_options. rewrite !not_elem_of_cons. split_and!; try done.
    apply not_elem_of_nil. }
  assert (p ∉ ["Low"; "Medium"; "High"]) as Hout'.
  { rewrite !not_elem_of_cons. split_and!; try done. apply not_elem_of_nil. }
  unfold resaved_priority, edit_prio_idx, edit_stat_idx.
  destruct (decide (p ∈ task_priority_options)); [done|].
  destruct (decide (p ∈ ["Low"; "Medium"; "High"])); done.
Qed.

(** ** Tasks written by the task forms *)

Lemma final_task_priority_clean (prio : string) : final_task_priority prio ≠ Some "---".
Proof.
  unfold final_task_priority. destruct (decide (prio = "---")); [done|]. congruence.
Qed.

Lemma insert_task_clean (d : database) (desc : string) (due : option Z) (stat : string)
    (prio : string) (notes_val : string) (j_id rec_id comp_id : option Z) :
  priorities_clean d →
  priorities_clean (run_statement
    (InsertTask desc due stat (final_task_priority prio) notes_val j_id rec_id comp_id) d).
Proof.
  unfold priorities_clean. intros Hd. simpl. apply Forall_app. split; [done|].
  repeat constructor. apply final_task_priority_clean.
Qed.

Lemma update_task_clean (d : database) (desc : string) (due : option Z) (stat : string)
    (prio : string) (notes_val : string) (j_id rec_id comp_id : option Z) (task_id : Z) :
  priorities_clean d →
  priorities_clean (run_statement
    (UpdateTask desc due stat (final_task_priority prio) notes_val j_id rec_id comp_id
                task_id) d).
Proof.
  unfold priorities_clean. intros Hd. simpl. apply Forall_fmap.
  eapply Forall_impl; [done|]. intros t Ht. simpl.
  destruct (bool_decide (tk_task_id t = task_id)); [|done].
  apply final_task_priority_clean.
Qed.

(** X12. The task forms never store the selector's "---" as a
    priority: if no stored task has it, then after the handler of "Add
    Task" or of "Update Task", whatever the form, the mappings and the
    backend do, still none has it, in the committed state and in the
    open transaction alike. *)
Theorem task_forms_keep_priorities_clean
    (company_options_map job_options_map recruiter_options_map : gmap string (option Z))
    (task_id : Z) (f : task_form) (w : world) :
  priorities_clean (durable (conn w)) →
  priorities_clean (working (conn w)) →
  let added := tab_add_task_submit company_options_map job_options_map
                                   recruiter_options_map f w in
  let updated := update_task_submit company_options_map job_options_map
                                    recruiter_options_map task_id f w in
  (priorities_clean (durable (conn added.2)) ∧ priorities_clean (working (conn added.2)))
  ∧ (priorities_clean (durable (conn updated.2))
     ∧ priorities_clean (working (conn updated.2))).
Proof.
  intros Hd Hw. cbn zeta. destruct w as [[dd wk fs] ss out]. cbn [conn durable working] in Hd, Hw.
  split.
  - unfold tab_add_task_submit, add_new_task.
    destruct (negb (truthy_str (tf_desc f)) || negb (truthy_str (tf_status f)));
      [by run_script|].
    pose proof (insert_task_clean wk (tf_desc f) (tf_due f) (tf_status f)
                  (tf_priority f) (tf_notes f)
                  (link_id job_options_map "--- Select Job ---" (tf_job_title f))
                  (link_id recruiter_options_map "--- Select Recruiter ---" (tf_rec_name f))
                  (link_id company_options_map "--- Select Company ---" (tf_comp_name f))
                  Hw) as Hnew.
    destruct fs as [|[] [|[] [|[] fs]]]; by run_script.
  - unfold update_task_submit, update_task_details.
    destruct (negb (truthy_str (tf_desc f)) || negb (truthy_str (tf_status f))) eqn:Hv;
      [by run_script|].
    apply orb_false_iff in Hv as [Hv1 Hv2].
    apply negb_false_iff in Hv1, Hv2. rewrite Hv1, Hv2.
    destruct (truthy_int task_id); cbn [andb negb]; [|by run_script].
    pose proof (update_task_clean wk (tf_desc f) (tf_due f) (tf_status f)
                  (tf_priority f) (tf_notes f)
                  (link_id job_options_map "--- Select Job ---" (tf_job_title f))
                  (link_id recruiter_options_map "--- Select Recruiter ---" (tf_rec_name f))
                  (link_id company_options_map "--- Select Company ---" (tf_comp_name f))
                  task_id Hw) as Hnew.
    destruct fs as [|[] [|[] [|[] fs]]];
      cbv [set_selected_task_id_for_edit]; by run_script.
Qed.

Lemma task_forms_keep_priorities_clean_witness :
  let added := tab_add_task_submit ∅ ∅ ∅ example_task_form (healthy jobs_and_tasks) in
  let updated := update_task_submit ∅ ∅ ∅ 1 example_task_form (healthy jobs_and_tasks) in
  (priorities_clean (durable (conn added.2)) ∧ priorities_clean (working (conn added.2)))
  ∧ (priorities_clean (durable (conn updated.2))
     ∧ priorities_clean (working (conn updated.2))).
Proof.
  apply (task_forms_keep_priorities_clean ∅ ∅ ∅ 1 example_task_form
           (healthy jobs_and_tasks));
    unfold priorities_clean; simpl; repeat (constructor; [done|]); constructor.
Defined.

(** ** Forms with a required field left empty *)

(** X13. A form with a required field left empty is turned away before
    any query: the handlers of "Add Recruiter" with an empty name, of
    "Add Company" with an empty name and of "Add Task" with an empty
    description or status make no call to the backend, leave connection
    and session as they are, show an error and end without a rerun. *)
Theorem empty_required_field_writes_nothing
    (company_options_map job_options_map recruiter_options_map : gmap string (option Z))
    (w : world) :
  let rejected (after : outcome () * world) :=
    after.1 = Returned () ∧ conn after.2 = conn w ∧ session after.2 = session w
    ∧ ∃ text, last (shown after.2) = Some (StError text) in
  (∀ f, new_rec_name f = "" → rejected (tab_add_rec_submit company_options_map f w))
  ∧ (∀ f, new_comp_name f = "" → rejected (tab_add_comp_submit f w))
  ∧ (∀ f, tf_desc f = "" ∨ tf_status f = "" →
          rejected (tab_add_task_submit company_options_map job_options_map
                                        recruiter_options_map f w)).
Proof.
  cbn zeta. destruct w as [c ss out]. split_and!.
  - intros f Hf. unfold tab_add_rec_submit. rewrite Hf.
    change (truthy_str "") with false. run_script.
    split_and!; try done. eexists. apply last_snoc.
  - intros f Hf. unfold tab_add_comp_submit. rewrite Hf.
    change (truthy_str "") with false. run_script.
    split_and!; try done. eexists. apply last_snoc.
  - intros f Hf. unfold tab_add_task_submit.
    assert (negb (truthy_str (tf_desc f)) || negb (truthy_str (tf_status f)) = true)
      as ->.
    { destruct Hf as [-> | ->]; change (truthy_str "") with false;
        [done|apply orb_true_r]. }
    run_script. split_and!; try done. eexists. apply last_snoc.
Qed.

(** ** The two-step delete, further *)

(** X14. A pass over the tab "Edit/Delete Job" deletes nothing unless
    the confirm button of the pending job is pressed: whatever is
    selected and whatever the backend does, if the click is not a form
    submission and is not the confirm click for the identifier the
    session holds as pending, the committed state and the open
    transaction are left as they were. *)
Theorem job_pass_writes_only_on_confirmed (company_options_map : gmap string (option Z))
    (actual_company_names : list string) (sel : option nat) (ev : click) (w : world) :
  (∀ f, ev ≠ SubmitUpdate f) →
  (∀ x, ev = ConfirmDelete x → confirm_delete_job_id (session w) ≠ Some x) →
  let after := tab_edit_delete_job company_options_map actual_company_names sel ev w in
  durable (conn after.2) = durable (conn w)
  ∧ working (conn after.2) = working (conn w).
Proof.
  intros Hform Hpending. destruct w as [[d wk fs] ss out].
  cbn [session] in Hpending. cbn zeta. run_page.
  destruct fs as [|[] fs]; try done.
  all: destruct (all_jobs_query wk) as [|a0 l]; [done|].
  all: destruct sel as [i|]; [|done]; destruct ((a0 :: l) !! i) as [a|]; [|done].
  all: destruct (truthy_int (jl_job_id a)); [|done].
  all: try (destruct fs as [|[] fs]; try done).
  all: destruct (job_details_query (jl_job_id a) wk) as [[jd cn]|]; [|done].
  all: unfold request_clicked, confirm_clicked, cancel_clicked.
  all: destruct ev as [|f|k|k|k]; try (by destruct (Hform f)).
  all: destruct ss as [s1 s2 s3 s4 s5 s6 s7 s8]; cbn [confirm_delete_job_id] in Hpending.
  all: try (destruct (bool_decide (k = jb_job_id jd)) eqn:Hk).
  all: try (destruct (bool_decide (s2 = Some (jb_job_id jd))) eqn:Hc).
  all: try done.
  all: try (match goal with
            |- context [bool_decide ?P] => by destruct (bool_decide P)
            end).
  all: apply bool_decide_eq_true in Hk, Hc; subst; by destruct (Hpending _ eq_refl).
Qed.

Lemma job_pass_writes_only_on_confirmed_witness :
  let after := tab_edit_delete_job ∅ [] (Some 0%nat) (ConfirmDelete 5)
                                   (healthy five_jobs) in
  durable (conn after.2) = five_jobs ∧ working (conn after.2) = five_jobs.
Proof.
  apply (job_pass_writes_only_on_confirmed ∅ [] (Some 0%nat) (ConfirmDelete 5)
           (healthy five_jobs)); [done|].
  intros x _. done.
Defined.

(** A pass in which "YES, Delete Now" of the pending, listed job is
    pressed on a backend that answers. *)
Lemma confirm_delete_pass (company_options_map : gmap string (option Z))
    (actual_company_names : list string) (w : world) (i : nat) (a : job_listing) :
  faults (conn w) = [] →
  all_jobs_query (working (conn w)) !! i = Some a →
  jl_job_id a ≠ 0 →
  confirm_delete_job_id (session w) = Some (jl_job_id a) →
  let d' := run_statement (DeleteJob (jl_job_id a)) (working (conn w)) in
  ∃ warning,
  tab_edit_delete_job company_options_map actual_company_names (Some i)
                      (ConfirmDelete (jl_job_id a)) w
  = (Raised RerunException,
     World (Connection d' d' [])
           (SessionState None None
              (selected_recruiter_id_for_edit (session w))
              (confirm_delete_recruiter_id (session w))
              (selected_company_id_for_edit (session w))
              (confirm_delete_company_id (session w))
              (selected_task_id_for_edit (session w))
              (confirm_delete_task_id (session w)))
           ((shown w ++ [StError warning]) ++ [StSuccess "Job deleted!"])).
Proof.
  intros Hfs Hi Hnz Hpending. destruct w as [[d wk fs] ss out]. simpl in *. subst fs.
  destruct (job_details_of_listed wk a) as (jd & cn & Hq & Hid).
  { by eapply list_elem_of_lookup_2. }
  exists ("FINAL WARNING: Permanently delete '" +:+ jb_job_title jd +:+ "'?").
  assert (truthy_int (jl_job_id a) = true) as Ht.
  { unfold truthy_int. by rewrite bool_decide_eq_false_2. }
  unfold tab_edit_delete_job, confirm_delete_job, delete_job_record.
  run_page.
  destruct (all_jobs_query wk) as [|a0 l] eqn:Hl; [done|].
  rewrite Hi, Ht, Hq. unfold request_clicked, confirm_clicked, cancel_clicked.
  rewrite Hid, Ht. destruct ss; simpl in *. rewrite Hpending.
  rewrite !bool_decide_eq_true_2 by done. reflexivity.
Qed.

(** X15. Request, then confirm: on a backend that answers, pressing
    "Request to Delete" on a listed job and then "YES, Delete Now"
    removes exactly the stored jobs with that identifier, commits,
    reports the deletion, and leaves the session with no job selected
    and none pending. *)
Theorem request_then_confirm_deletes_job (company_options_map : gmap string (option Z))
    (actual_company_names : list string) (w : world) (i : nat) (a : job_listing) :
  faults (conn w) = [] →
  all_jobs_query (working (conn w)) !! i = Some a →
  jl_job_id a ≠ 0 →
  let pass := tab_edit_delete_job company_options_map actual_company_names in
  let requested := pass (Some i) (RequestDelete (jl_job_id a)) w in
  let confirmed := pass (Some i) (ConfirmDelete (jl_job_id a)) requested.2 in
  confirmed.1 = Raised RerunException
  ∧ jobs (durable (conn confirmed.2))
    = filter (λ j, jb_job_id j ≠ jl_job_id a) (jobs (working (conn w)))
  ∧ working (conn confirmed.2) = durable (conn confirmed.2)
  ∧ selected_job_id_for_edit (session confirmed.2) = None
  ∧ confirm_delete_job_id (session confirmed.2) = None
  ∧ last (shown confirmed.2) = Some (StSuccess "Job deleted!").
Proof.
  intros Hfs Hi Hnz pass requested confirmed. subst confirmed requested pass.
  rewrite (request_delete_pass _ _ w i a) by done. cbn [snd].
  match goal with
  | |- context [tab_edit_delete_job _ _ _ _ ?w'] =>
      destruct (confirm_delete_pass company_options_map actual_company_names w' i a)
        as [warning ->]; [done..|]
  end.
  cbn [fst snd conn durable working session selected_job_id_for_edit
       confirm_delete_job_id shown].
  split_and!; try done. apply last_snoc.
Qed.

Lemma request_then_confirm_deletes_job_witness :
  let pass := tab_edit_delete_job ∅ [] in
  let requested := pass (Some 0%nat) (RequestDelete 5) (healthy five_jobs) in
  let confirmed := pass (Some 0%nat) (ConfirmDelete 5) requested.2 in
  confirmed.1 = Raised RerunException
  ∧ jobs (durable (conn confirmed.2)) = filter (λ j, jb_job_id j ≠ 5) (jobs five_jobs)
  ∧ working (conn confirmed.2) = durable (conn confirmed.2)
  ∧ selected_job_id_for_edit (session confirmed.2) = None
  ∧ confirm_delete_job_id (session confirmed.2) = None
  ∧ last (shown confirmed.2) = Some (StSuccess "Job deleted!").
Proof.
  apply (request_then_confirm_deletes_job ∅ [] (healthy five_jobs) 0
           (JobListing 5 "Engineer" (Some "Acme") 1 "" "Not Applied" "" None "" 5));
    [reflexivity | reflexivity | done].
Defined.

(** ** Tasks: what is written can be read back *)

Lemma left_join_nonempty {A B} (on : A → B → bool) (l : list A) (r : list B) :
  l ≠ [] → left_join on l r ≠ [].
Proof.
  destruct l as [|a l]; [done|]. intros _. rewrite left_join_cons.
  by destruct (left_join_one_nonempty on a r) as (b & rest & ->).
Qed.

Lemma tasks_join_task (d : database) (r : task_row) :
  r ∈ tasks_join d → task_of r ∈ tasks d.
Proof.
  unfold tasks_join, task_of. intros Hr.
  apply left_join_elem in Hr as [Hr _]. apply left_join_elem in Hr as [Hr _].
  by apply left_join_elem in Hr as [Hr _].
Qed.

Lemma filter_none {A} (P : A → Prop) `{!∀ x, Decision (P x)} (l : list A) :
  Forall (λ x, ¬ P x) l → filter P l = [].
Proof.
  induction 1 as [|x l Hx Hl IH]; [done|]. by rewrite filter_cons_False.
Qed.

(** X16. A task added by [add_new_task] can be read back at once: on a
    backend that answers, with the task sequence ahead of the stored
    tasks, [get_task_details] on the new identifier returns a row whose
    columns are the arguments of the insert, absent links and absent
    priority included. *)
Theorem task_insert_then_get (desc : string) (due : option Z) (stat : string)
    (prio : option string) (notes_val : string) (j_id rec_id comp_id : option Z)
    (w : world) :
  desc ≠ "" → stat ≠ "" →
  faults (conn w) = [] →
  task_ids_fresh (working (conn w)) →
  let d := working (conn w) in
  let added := add_new_task desc due stat prio notes_val j_id rec_id comp_id w in
  added.1 = Returned true
  ∧ ∃ job_title recruiter_name company_name,
      (get_task_details (next_task_id d) added.2).1
      = Returned (Some (Task (next_task_id d) desc due stat prio notes_val
                             j_id rec_id comp_id (now d),
                        job_title, recruiter_name, company_name)).
Proof.
  intros Hdesc Hstat Hfs Hfresh d added. subst added.
  unfold add_new_task.
  rewrite (truthy_str_nonempty _ Hdesc), (truthy_str_nonempty _ Hstat). cbn [negb orb].
  rewrite write_block_healthy by done. split; [done|]. cbn [fst snd].
  unfold get_task_details. rewrite read_healthy by done. cbn [fst conn working].
  fold d. unfold task_details_query, tasks_join.
  cbn [run_statement set_tasks jobs companies recruiters tasks].
  set (new := Task (next_task_id d) desc due stat prio notes_val j_id rec_id comp_id
                   (now d)).
  rewrite !left_join_app, filter_app.
  fold (tasks_join d).
  rewrite (filter_none _ (tasks_join d)).
  2: { apply Forall_forall. intros r Hr Hid. apply tasks_join_task in Hr.
       unfold task_ids_fresh in Hfresh. rewrite Forall_forall in Hfresh.
       specialize (Hfresh _ Hr). fold d in Hfresh. lia. }
  rewrite app_nil_l.
  match goal with |- context [filter ?P ?l] => set (rows := l) end.
  assert (∀ r, r ∈ rows → task_of r = new) as Hrows.
  { intros r Hr. subst rows. unfold task_of.
    apply left_join_elem in Hr as [Hr _]. apply left_join_elem in Hr as [Hr _].
    apply left_join_elem in Hr as [Hr _]. by apply list_elem_of_singleton in Hr. }
  assert (rows ≠ []) as Hne.
  { subst rows. by repeat apply left_join_nonempty. }
  rewrite filter_all.
  2: { apply Forall_forall. intros r Hr. by rewrite (Hrows r Hr). }
  destruct rows as [|r0 rest]; [done|]. simpl.
  unfold task_details_of. rewrite (Hrows r0) by left. by eexists _, _, _.
Qed.

Lemma task_insert_then_get_witness :
  let added := add_new_task "Call back" None "Open" None "" (Some 3) None None
                            (healthy jobs_and_tasks) in
  added.1 = Returned true
  ∧ ∃ job_title recruiter_name company_name,
      (get_task_details 4 added.2).1
      = Returned (Some (Task 4 "Call back" None "Open" None "" (Some 3) None None 9,
                        job_title, recruiter_name, company_name)).
Proof.
  apply (task_insert_then_get "Call back" None "Open" None "" (Some 3) None None
           (healthy jobs_and_tasks)); [done | done | reflexivity |].
  unfold task_ids_fresh. simpl. repeat constructor.
Defined.

(** X17. A pass over the tab "Edit/Delete Task" writes nothing unless
    a form is submitted or the confirm button of the pending task is
    pressed: whatever is selected and whatever the backend does, any
    other click leaves the committed state and the open transaction as
    they were. *)
Theorem task_pass_writes_only_on_confirmed
    (company_options_map job_options_map recruiter_options_map : gmap string (option Z))
    (sel : option nat) (ev : task_click) (w : world) :
  (∀ f, ev ≠ SubmitTaskUpdate f) →
  (∀ x, ev = ConfirmTaskDelete x → confirm_delete_task_id (session w) ≠ Some x) →
  let after := tab_edit_delete_task company_options_map job_options_map
                                    recruiter_options_map sel ev w in
  durable (conn after.2) = durable (conn w)
  ∧ working (conn after.2) = working (conn w).
Proof.
  intros Hform Hpending. destruct w as [[d wk fs] ss out].
  cbn [session] in Hpending. cbn zeta. run_task_page.
  destruct fs as [|[] fs]; try done.
  all: destruct (all_tasks_query wk) as [|a0 l]; [done|].
  all: destruct sel as [i|]; [|done]; destruct ((a0 :: l) !! i) as [a|]; [|done].
  all: destruct (truthy_int (tl_task_id a)); [|done].
  all: try (destruct fs as [|[] fs]; try done).
  all: destruct (task_details_query (tl_task_id a) wk) as [[[[td jt] rn] cn]|]; [|done].
  all: destruct ev as [|f|k|k|k]; try (by destruct (Hform f)).
  all: destruct ss as [s1 s2 s3 s4 s5 s6 s7 s8]; cbn [confirm_delete_task_id] in Hpending.
  all: try (destruct (bool_decide (k = tk_task_id td)) eqn:Hk).
  all: try (destruct (bool_decide (s8 = Some (tk_task_id td))) eqn:Hc).
  all: try done.
  all: try (match goal with
            |- context [bool_decide ?P] => by destruct (bool_decide P)
            end).
  all: apply bool_decide_eq_true in Hk, Hc; subst; by destruct (Hpending _ eq_refl).
Qed.

Lemma task_pass_writes_only_on_confirmed_witness :
  let after := tab_edit_delete_task ∅ ∅ ∅ (Some 0%nat) (ConfirmTaskDelete 3)
                                    (healthy jobs_and_tasks) in
  durable (conn after.2) = jobs_and_tasks ∧ working (conn after.2) = jobs_and_tasks.
Proof.
  apply (task_pass_writes_only_on_confirmed ∅ ∅ ∅ (Some 0%nat) (ConfirmTaskDelete 3)
           (healthy jobs_and_tasks)); [done|].
  intros x _. done.
Defined.

(** X18. "Update Task" stores what the form resolves to, not what was
    stored: on a backend that answers, with description and status
    filled in, every stored task with the identifier afterwards carries
    the form's description, due date, status and notes, the priority
    with "---" turned into none, and as links the identifiers the
    selected names have in the cached mappings, which is no link for a
    selector left at its first entry and for a name the mapping does not
    know; tasks with other identifiers are untouched, the selection is
    cleared and the page reruns. *)
Theorem task_update_stores_the_form
    (company_options_map job_options_map recruiter_options_map : gmap string (option Z))
    (task_id : Z) (f : task_form) (w : world) :
  task_id ≠ 0 → tf_desc f ≠ "" → tf_status f ≠ "" →
  faults (conn w) = [] →
  let after := update_task_submit company_options_map job_options_map
                                  recruiter_options_map task_id f w in
  let link m placeholder name :=
    if decide (name = placeholder) then None
    else match m !! name with Some (Some id) => Some id | _ => None end in
  after.1 = Raised RerunException
  ∧ selected_task_id_for_edit (session after.2) = None
  ∧ tasks (durable (conn after.2))
    = (λ t, if bool_decide (tk_task_id t = task_id)
            then Task task_id (tf_desc f) (tf_due f) (tf_status f)
                      (if decide (tf_priority f = "---") then None
                       else Some (tf_priority f))
                      (tf_notes f)
                      (link job_options_map "--- Select Job ---" (tf_job_title f))
                      (link recruiter_options_map "--- Select Recruiter ---"
                            (tf_rec_name f))
                      (link company_options_map "--- Select Company ---" (tf_comp_name f))
                      (tk_created_at t)
            else t) <$> tasks (working (conn w)).
Proof.
  intros Hid Hdesc Hstat Hfs. destruct w as [[d wk fs] ss out].
  cbn [conn faults] in Hfs. subst fs. cbn zeta.
  unfold update_task_submit, update_task_details.
  rewrite (truthy_str_nonempty _ Hdesc), (truthy_str_nonempty _ Hstat).
  assert (truthy_int task_id = true) as ->.
  { unfold truthy_int. by rewrite bool_decide_eq_false_2. }
  cbv [set_selected_task_id_for_edit]. run_script. split_and!; [done..|].
  cbn [run_statement set_tasks tasks]. apply list_fmap_ext. intros _ t _.
  destruct (bool_decide (tk_task_id t = task_id)); [|done].
  unfold final_task_priority, link_id, dict_get.
  f_equal.
  all: match goal with
       | |- context [decide ?P] => destruct (decide P); [done|]
       end.
  all: match goal with
       | |- context [?m !! ?k] => by destruct (m !! k) as [[?|]|]
       end.
Qed.

Lemma task_update_stores_the_form_witness :
  let after := update_task_submit ∅ ∅ ∅ 1 example_task_form (healthy jobs_and_tasks) in
  after.1 = Raised RerunException
  ∧ selected_task_id_for_edit (session after.2) = None
  ∧ tasks (durable (conn after.2))
    = [Task 1 "Call back" (Some 30) "Open" None "" None None None 6;
       Task 2 "Follow up" None "Open" None "" (Some 3) None (Some 1) 7;
       Task 3 "Research" (Some 10) "Completed" (Some "Low") "" None None None 8].
Proof.
  destruct (task_update_stores_the_form ∅ ∅ ∅ 1 example_task_form
              (healthy jobs_and_tasks)) as (H1 & H2 & H3);
    [done | done | done | reflexivity |].
  split_and!; [exact H1 | exact H2 |]. rewrite H3. reflexivity.
Defined.

(** ** Deleting a company, and editing a job without one *)



(** X20. "Update Job Details" never writes a job without a company:
    when the selected company name is empty, unknown to the cached
    mapping or mapped to no identifier, the handler makes no call to the
    backend, leaves connection and session as they are, shows an error
    and ends without a rerun, whether or not any company name is on
    offer. *)
Theorem job_update_without_company_writes_nothing
    (company_options_map : gmap string (option Z)) (actual_company_names : list string)
    (job_id : Z) (f : edit_job_form) (w : world) :
  sel_edit_comp_name f = ""
  ∨ dict_get company_options_map (sel_edit_comp_name f) = None →
  let after := update_job_submit company_options_map actual_company_names job_id f w in
  after.1 = Returned ()
  ∧ conn after.2 = conn w
  ∧ session after.2 = session w
  ∧ ∃ text, last (shown after.2) = Some (StError text).
Proof.
  intros Hsel. cbn zeta. unfold update_job_submit.
  assert ((if truthy_str (sel_edit_comp_name f)
              && bool_decide (is_Some (company_options_map !! sel_edit_comp_name f))
           then dict_get company_options_map (sel_edit_comp_name f) else None) = None)
    as ->.
  { destruct Hsel as [-> | ->]; [done|]. by destruct (_ && _). }
  unfold update_job_details. destruct w as [c ss out].
  destruct (truthy_str (edit_title f)) eqn:Ht;
    destruct (bool_decide (actual_company_names = [])) eqn:Hn;
    destruct (truthy_int job_id), (truthy_str (edit_stat f));
    run_script; rewrite ?Hn, ?Ht; run_script;
    (split_and!; [done..|]); eexists; apply last_snoc.
Qed.

Lemma job_update_without_company_writes_nothing_witness :
  let f := EditJobForm "Lead" "Initech" "" "Offer" "" "" None in
  let after := update_job_submit ∅ [] 3 f (healthy five_jobs) in
  after.1 = Returned ()
  ∧ conn after.2 = conn (healthy five_jobs)
  ∧ session after.2 = initial_session
  ∧ ∃ text, last (shown after.2) = Some (StError text).
Proof.
  apply (job_update_without_company_writes_nothing ∅ [] 3
           (EditJobForm "Lead" "Initech" "" "Offer" "" "" None) (healthy five_jobs)).
  right. reflexivity.
Defined.
